(** * README table generator: shallow embedding of [main.go]

    The program queries the viewer's most recently pushed repositories,
    flattens every repository node into a [latestProjectEntry], stable-sorts
    the entries so that the viewer's own commits come first, renders one
    Markdown table row per entry through [html/template], appends header and
    rows to the staging file [./README-1.md] and renames it to [README.md].

    Go strings are byte strings and are modelled by [string] (a list of
    8-bit [ascii]); [time.Duration] is an [int64] count of nanoseconds and is
    modelled by [Z] with the wrap-around written out; slices are lists read
    with stdpp's [!!]; the file system is a [gmap] from path to content. *)

From Stdlib Require Import ZArith Lia Ascii String DecimalString.
From stdpp Require Import base list sorting gmap strings.

Local Open Scope string_scope.
Local Open Scope Z_scope.

(** ** Machine integers and [time.Duration] *)

Module Duration.

Definition minDuration : Z := - 2 ^ 63.
Definition maxDuration : Z := 2 ^ 63 - 1.

(** Conversion of a mathematical integer to [int64] (two's complement). *)
Definition wrap64 (z : Z) : Z := (z + 2 ^ 63) mod 2 ^ 64 - 2 ^ 63.

(** Conversion [uint64(x)]. *)
Definition uint64 (z : Z) : Z := z mod 2 ^ 64.

Definition Nanosecond : Z := 1.
Definition Microsecond : Z := 1000 * Nanosecond.
Definition Millisecond : Z := 1000 * Microsecond.
Definition Second : Z := 1000 * Millisecond.
Definition Minute : Z := 60 * Second.
Definition Hour : Z := 60 * Minute.

(** [time.Time.Sub] on two wall-clock instants, each given in nanoseconds
    on one common time line: the difference, saturated to the range of a
    [Duration]. *)
Definition Sub (t u : Z) : Z :=
  if t - u <? minDuration then minDuration
  else if maxDuration <? t - u then maxDuration
  else t - u.

(** [lessThanHalf(x, y)]: [uint64(x)+uint64(x) < uint64(y)]. *)
Definition lessThanHalf (x y : Z) : bool :=
  uint64 (uint64 x + uint64 x) <? uint64 y.

(** [time.Duration.Round]: nearest multiple of [m], halfway values away
    from zero, saturating where the result leaves the [int64] range.
    [%] is Go's truncated remainder, [Z.rem]. *)
Definition Round (d m : Z) : Z :=
  if m <=? 0 then d
  else
    let r := Z.rem d m in
    if d <? 0 then
      let r := wrap64 (- r) in
      if lessThanHalf r m then wrap64 (d + r)
      else
        let d1 := wrap64 (wrap64 (d - m) + r) in
        if d1 <? d then d1 else minDuration
    else
      if lessThanHalf r m then wrap64 (d - r)
      else
        let d1 := wrap64 (wrap64 (d + m) - r) in
        if d <? d1 then d1 else maxDuration.

End Duration.

(** [fmt.Sprintf("%d", z)] for an [int64]: decimal digits, a leading minus
    sign for negative numbers. *)
Definition fmt_d (z : Z) : string := NilZero.string_of_int (Z.to_int z).

(** [fmtDuration]: hours by truncated division, the remainder in minutes. *)
Definition fmtDuration (d : Z) : string :=
  let h := Duration.wrap64 (Z.quot d Duration.Hour) in
  let d := Duration.wrap64 (d - Duration.wrap64 (h * Duration.Hour)) in
  let m := Duration.wrap64 (Z.quot d Duration.Minute) in
  fmt_d h +:+ " hours " +:+ fmt_d m +:+ " minutes".

(** ** Panics and fallible computations

    A Go panic unwinds the whole program here (nothing recovers), so a
    computation either yields a value or the value it panicked with. *)

Inductive panicValue : Type :=
| QueryFailed (err : string)          (* [panic(err)] after [client.Query] *)
| IndexOutOfRange (index len : nat)   (* runtime error of a slice access *)
| TemplateFailed (err : string).      (* [panic(err)] after Parse / Execute *)

Inductive outcome (A : Type) : Type :=
| Ok (a : A)
| Panic (p : panicValue).
Arguments Ok {A} a.
Arguments Panic {A} p.

#[global] Instance outcome_ret : MRet outcome := fun A a => Ok a.
#[global] Instance outcome_bind : MBind outcome := fun A B k m =>
  match m with
  | Ok a => k a
  | Panic p => Panic p
  end.
#[global] Instance outcome_fmap : FMap outcome := fun A B f m =>
  match m with
  | Ok a => Ok (f a)
  | Panic p => Panic p
  end.

(** [s[i]] on a slice: the element, or the run-time panic. *)
Definition index {A} (s : list A) (i : nat) : outcome A :=
  match s !! i with
  | Some x => Ok x
  | None => Panic (IndexOutOfRange i (length s))
  end.

(** [for _, x := range s { y := f(x); out = append(out, y) }], stopping at
    the first panic. *)
Fixpoint rangeAppend {A B} (f : A -> outcome B) (s : list A) (out : list B)
  : outcome (list B) :=
  match s with
  | [] => Ok out
  | x :: s' => y ← f x; rangeAppend f s' (out ++ [y])
  end.

(** ** Data model *)

Definition latestRepoCnt : Z := 5.
Definition enableSortByName : bool := true.
Definition originReadmeFile : string := "./README-1.md".

Record latestProjectEntry : Type := {
  RepoName : string;
  RepoUrl : string;
  RepoLang : string;
  BranchName : string;
  BranchUrl : string;
  CommitID : string;
  CommitUrl : string;
  CommitAuthorID : string;
  CommitAuthorUrl : string;
  Time : string
}.

(** The decoded query result, one module per nested struct of [query]. *)

Module User.
Record t : Type := { Login : string; Url : string }.
End User.

Module Commit.
Record t : Type := {
  CommitUrl : string;
  AbbreviatedOid : string;
  Author_User : User.t
}.
End Commit.

Module Ref.
Record t : Type := {
  Name : string;
  (** [Node.Target.Commit.History.Edges], each edge reduced to its [Node] *)
  History_Edges : list Commit.t
}.
End Ref.

Module Repo.
Record t : Type := {
  Name : string;
  Description : string;
  Url : string;
  PrimaryLanguage_Name : string;
  (** [PushedAt], in nanoseconds on the time line of [time.Now] *)
  PushedAt : Z;
  IsFork : bool;
  (** [Refs.Edges], each edge reduced to its [Node] *)
  Refs_Edges : list Ref.t
}.
End Repo.

Module Viewer.
Record t : Type := {
  Login : string;
  Repositories_Nodes : list Repo.t
}.
End Viewer.

(** ** [sort.SliceStable]

    The comparison is a closure over the slice being sorted: it receives two
    indices and reads the current contents, so [less] takes the store as an
    argument.  For at most 20 elements (the block size of the library's
    [stable]) the library runs exactly [insertionSort(data, 0, n)], which is
    what is embedded; longer slices are insertion-sorted in blocks and the
    blocks merged, which yields the same arrangement, a stable sort having
    one result only.  The query asks for [latestRepoCnt] nodes. *)

Section SliceStable.
Context {A : Type}.
Variable less : list A -> nat -> nat -> outcome bool.

(** [data.Swap(i, j)]: [tmp := s[i]; s[i] = s[j]; s[j] = tmp]. *)
Definition Swap (data : list A) (i j : nat) : outcome (list A) :=
  tmp ← index data i;
  y ← index data j;
  mret (<[j := tmp]> (<[i := y]> data)).

(** [for j := i; j > a && data.Less(j, j-1); j-- { data.Swap(j, j-1) }] *)
Fixpoint insertionInner (a j : nat) (data : list A) : outcome (list A) :=
  match j with
  | O => Ok data
  | S j' =>
      if bool_decide (a < j)%nat then
        b ← less data j j';
        if b : bool then data' ← Swap data j j'; insertionInner a j' data'
        else Ok data
      else Ok data
  end.

(** [for i := a + 1; i < b; i++ { ... }], with [k] iterations left. *)
Fixpoint insertionOuter (a i k : nat) (data : list A) : outcome (list A) :=
  match k with
  | O => Ok data
  | S k' => data' ← insertionInner a i data; insertionOuter a (S i) k' data'
  end.

Definition insertionSort (a b : nat) (data : list A) : outcome (list A) :=
  insertionOuter a (a + 1) (b - (a + 1)) data.

Definition SliceStable (data : list A) : outcome (list A) :=
  insertionSort 0 (length data) data.

End SliceStable.

(** ** The environment of a run *)

(** What one call of [client.Query] yields: an error (network, auth,
    decoding) or the decoded [query.Viewer]. *)
Inductive response : Type :=
| QueryError (err : string)
| QueryData (v : Viewer.t).

Record world : Type := {
  (** the answers the API will give, one per call of [client.Query] *)
  responses : list response;
  (** [time.Now()], nanoseconds *)
  clock : Z;
  (** the files of the working directory, by path *)
  files : gmap string string
}.

Definition M (A : Type) : Type := world -> outcome A * world.

#[global] Instance M_ret : MRet M := fun A a w => (Ok a, w).
#[global] Instance M_bind : MBind M := fun A B k m w =>
  match m w with
  | (Ok a, w') => k a w'
  | (Panic p, w') => (Panic p, w')
  end.

Definition lift {A} (r : outcome A) : M A := fun w => (r, w).

(** [err := client.Query(...); if err != nil { panic(err) }]: one request;
    a client that gets no answer reports an error as well. *)
Definition clientQuery : M Viewer.t := fun w =>
  match responses w with
  | [] => (Panic (QueryFailed "no response"), w)
  | r :: rest =>
      let w' := {| responses := rest; clock := clock w; files := files w |} in
      match r with
      | QueryError err => (Panic (QueryFailed err), w')
      | QueryData v => (Ok v, w')
      end
  end.

Definition timeNow : M Z := fun w => (Ok (clock w), w).

(** ** [fetchLatestProjects] *)

Definition ref0 (repo : Repo.t) : outcome Ref.t :=
  index (Repo.Refs_Edges repo) 0.

Definition commit0 (repo : Repo.t) : outcome Commit.t :=
  e ← ref0 repo; index (Ref.History_Edges e) 0.

(** [baseTime.Sub(repo.PushedAt).Round(time.Minute)] *)
Definition durationTime (baseTime : Z) (repo : Repo.t) : Z :=
  Duration.Round (Duration.Sub baseTime (Repo.PushedAt repo)) Duration.Minute.

(** The body of the loop over [query.Viewer.Repositories.Nodes]: the fields
    of the composite literal are evaluated in order, then [Time] is set and
    an empty [RepoLang] replaced. *)
Definition entryOf (baseTime : Z) (repo : Repo.t) : outcome latestProjectEntry :=
  let repoName := Repo.Name repo in
  let repoUrl := Repo.Url repo in
  let repoLang := Repo.PrimaryLanguage_Name repo in
  branchName ← Ref.Name <$> ref0 repo;
  branchUrl ← (fun e => Repo.Url repo +:+ "/tree/" +:+ Ref.Name e) <$> ref0 repo;
  commitUrl ← Commit.CommitUrl <$> commit0 repo;
  commitID ← Commit.AbbreviatedOid <$> commit0 repo;
  commitAuthorID ← (fun c => User.Login (Commit.Author_User c)) <$> commit0 repo;
  commitAuthorUrl ← (fun c => User.Url (Commit.Author_User c)) <$> commit0 repo;
  let time := fmtDuration (durationTime baseTime repo) in
  let repoLang := if String.eqb repoLang "" then "unknown" else repoLang in
  mret {| RepoName := repoName; RepoUrl := repoUrl; RepoLang := repoLang;
          BranchName := branchName; BranchUrl := branchUrl;
          CommitID := commitID; CommitUrl := commitUrl;
          CommitAuthorID := commitAuthorID;
          CommitAuthorUrl := commitAuthorUrl; Time := time |}.

(** The closure given to [sort.SliceStable]:
    [result[i].CommitAuthorID == login && result[j].CommitAuthorID != login]. *)
Definition lessByAuthor (login : string)
  (result : list latestProjectEntry) (i j : nat) : outcome bool :=
  x ← index result i;
  if String.eqb (CommitAuthorID x) login then
    y ← index result j;
    mret (negb (String.eqb (CommitAuthorID y) login))
  else mret false.

(** [if enableSortByName { sort.SliceStable(result, ...) }] *)
Definition orderStage (enable : bool) (login : string)
  (result : list latestProjectEntry) : outcome (list latestProjectEntry) :=
  if enable then SliceStable (lessByAuthor login) result else Ok result.

Definition fetchLatestProjects : M (list latestProjectEntry) :=
  query ← clientQuery;
  baseTime ← timeNow;
  result ← lift (rangeAppend (entryOf baseTime)
                   (Viewer.Repositories_Nodes query) []);
  lift (orderStage enableSortByName (Viewer.Login query) result).

(** ** Templates

    [text/template] syntax restricted to what the program's templates use:
    literal text and field actions [{{.Field}}]. *)

Module Template.

Inductive escaper : Type :=
| htmlescaper.  (* [_html_template_htmlescaper] *)

Inductive node : Type :=
| TextNode (text : string)
| ActionNode (field : string) (pipeline : list escaper).

Definition nl : string := String "010" "".

Definition textNode (text : string) : list node :=
  if String.eqb text "" then [] else [TextNode text].

(** The body of an action: a dot followed by a field name. *)
Definition actionNode (body : string) : outcome node :=
  match body with
  | String "." (String c name) => Ok (ActionNode (String c name) [])
  | _ => Panic (TemplateFailed ("unexpected action " +:+ body))
  end.

(** The lexer and parser in one pass: [cur] is the text, or the action
    body, read since the last delimiter. *)
Fixpoint parseFrom (inAction : bool) (cur : string) (s : string)
  : outcome (list node) :=
  match s with
  | "" =>
      if inAction then Panic (TemplateFailed "unclosed action")
      else Ok (textNode cur)
  | String c s' =>
      let continue := parseFrom inAction (cur +:+ String c "") s' in
      match s' with
      | String c' s'' =>
          if negb inAction && Ascii.eqb c "{" && Ascii.eqb c' "{" then
            nodes ← parseFrom true "" s''; mret (textNode cur ++ nodes)%list
          else if inAction && Ascii.eqb c "}" && Ascii.eqb c' "}" then
            n ← actionNode cur; nodes ← parseFrom false "" s''; mret (n :: nodes)
          else continue
      | "" => continue
      end
  end.

(** [template.New(name).Parse(text)] *)
Definition Parse (text : string) : outcome (list node) :=
  parseFrom false "" text.

(** [html/template]'s replacement table for HTML text: NUL becomes U+FFFD
    (in UTF-8), the five markup characters and the plus sign become
    character references; every other byte is kept. *)
Definition htmlReplacementTable (c : ascii) : option string :=
  if Ascii.eqb c "000" then Some (String "239" (String "191" (String "189" "")))
  else if Ascii.eqb c "034" then Some "&#34;"
  else if Ascii.eqb c "&" then Some "&amp;"
  else if Ascii.eqb c "'" then Some "&#39;"
  else if Ascii.eqb c "+" then Some "&#43;"
  else if Ascii.eqb c "<" then Some "&lt;"
  else if Ascii.eqb c ">" then Some "&gt;"
  else None.

Fixpoint htmlReplacer (s : string) : string :=
  match s with
  | "" => ""
  | String c s' =>
      match htmlReplacementTable c with
      | Some repl => repl +:+ htmlReplacer s'
      | None => String c (htmlReplacer s')
      end
  end.

Definition runEscaper (e : escaper) (s : string) : string :=
  match e with
  | htmlescaper => htmlReplacer s
  end.

Fixpoint contains (c : ascii) (s : string) : bool :=
  match s with
  | "" => false
  | String c' s' => Ascii.eqb c c' || contains c s'
  end.

(** The escaping pass [html/template] runs before the first execution.  A
    template whose text never opens a tag stays in the HTML text context,
    where every action gets the HTML escaper appended to its pipeline; text
    with markup is outside the embedded fragment. *)
Fixpoint escapeTemplate (t : list node) : outcome (list node) :=
  match t with
  | [] => Ok []
  | TextNode text :: t' =>
      if contains "<" text then
        Panic (TemplateFailed "markup in template text")
      else t'' ← escapeTemplate t'; mret (TextNode text :: t'')
  | ActionNode field pipeline :: t' =>
      t'' ← escapeTemplate t';
      mret (ActionNode field (pipeline ++ [htmlescaper])%list :: t'')
  end.

(** Evaluation of [.Field] on a [latestProjectEntry]. *)
Definition evalField (v : latestProjectEntry) (field : string)
  : outcome string :=
  if String.eqb field "RepoName" then Ok (RepoName v)
  else if String.eqb field "RepoUrl" then Ok (RepoUrl v)
  else if String.eqb field "RepoLang" then Ok (RepoLang v)
  else if String.eqb field "BranchName" then Ok (BranchName v)
  else if String.eqb field "BranchUrl" then Ok (BranchUrl v)
  else if String.eqb field "CommitID" then Ok (CommitID v)
  else if String.eqb field "CommitUrl" then Ok (CommitUrl v)
  else if String.eqb field "CommitAuthorID" then Ok (CommitAuthorID v)
  else if String.eqb field "CommitAuthorUrl" then Ok (CommitAuthorUrl v)
  else if String.eqb field "Time" then Ok (Time v)
  else Panic (TemplateFailed ("can't evaluate field " +:+ field)).

(** Walking the node list, writing to [buf]. *)
Fixpoint walk (t : list node) (v : latestProjectEntry) (buf : string)
  : outcome string :=
  match t with
  | [] => Ok buf
  | TextNode text :: t' => walk t' v (buf +:+ text)
  | ActionNode field pipeline :: t' =>
      s ← evalField v field;
      walk t' v (buf +:+ foldl (fun s e => runEscaper e s) s pipeline)
  end.

(** [html/template]'s [t.Execute(buf, v)]: escape, then walk. *)
Definition Execute (t : list node) (buf : string) (v : latestProjectEntry)
  : outcome string :=
  t' ← escapeTemplate t; walk t' v buf.

(** [text/template]'s [Execute]: the fields are written as they are. *)
Definition ExecuteVerbatim (t : list node) (buf : string)
  (v : latestProjectEntry) : outcome string :=
  walk t v buf.

End Template.

Definition markdownTableTmpl : string :=
  "| [{{.RepoName}}]({{.RepoUrl}}) | [{{.BranchName}}]({{.BranchUrl}}) |[{{.CommitID}}]({{.CommitUrl}}) | [@{{.CommitAuthorID}}]({{.CommitAuthorUrl}}) |{{.Time}} | ![](https://img.shields.io/badge/language-{{.RepoLang}}-default.svg?style=flat-square)|"
  +:+ Template.nl.

Definition markdownTableHeaderTmpl : string :=
  Template.nl
  +:+ "| repo | branch | commit | author | time since | language |" +:+ Template.nl
  +:+ "|:---:|:---:|:---:|:---:|:---:|:---:|" +:+ Template.nl.

(** ** [main] *)

(** The body of the loop over [r]: parse the row template, execute it into
    [buf], panic on either error. *)
Definition renderRow (buf : string) (v : latestProjectEntry) : outcome string :=
  t ← Template.Parse markdownTableTmpl;
  Template.Execute t buf v.

Fixpoint renderRows (buf : string) (r : list latestProjectEntry)
  : outcome string :=
  match r with
  | [] => Ok buf
  | v :: r' => buf' ← renderRow buf v; renderRows buf' r'
  end.

(** [os.OpenFile(name, os.O_WRONLY|os.O_APPEND, 0755)]: without [O_CREATE]
    the file must exist; the result is the open file, or [nil] with the
    error the caller discards.  An open file is identified by its path. *)
Definition OpenFile (name : string) : M (option string) := fun w =>
  match files w !! name with
  | Some _ => (Ok (Some name), w)
  | None => (Ok None, w)
  end.

(** [f.WriteString(s)] and [f.Write(b)] on a file opened for appending; on
    a [nil] file they return [ErrInvalid], which the caller discards. *)
Definition WriteString (f : option string) (s : string) : M unit := fun w =>
  match f with
  | Some name =>
      match files w !! name with
      | Some content =>
          (Ok tt, {| responses := responses w; clock := clock w;
                     files := <[name := content +:+ s]> (files w) |})
      | None => (Ok tt, w)
      end
  | None => (Ok tt, w)
  end.

(** [os.Rename(oldpath, newpath)]: replaces [newpath]; fails, changing
    nothing, when [oldpath] does not exist. The error is discarded. *)
Definition Rename (oldpath newpath : string) : M unit := fun w =>
  match files w !! oldpath with
  | Some content =>
      (Ok tt, {| responses := responses w; clock := clock w;
                 files := <[newpath := content]> (delete oldpath (files w)) |})
  | None => (Ok tt, w)
  end.

(** The deferred [f.Close()]; its result is dropped. *)
Definition Close (f : option string) : M unit := mret tt.

Definition main : M unit :=
  r ← fetchLatestProjects;
  buf ← lift (renderRows "" r);
  f ← OpenFile originReadmeFile;
  _ ← WriteString f markdownTableHeaderTmpl;
  _ ← WriteString f buf;
  _ ← Rename originReadmeFile "README.md";
  Close f.

(** ** Vocabulary of the statements *)

(** The record's latest commit was authored by the viewer. *)
Definition isViewer (login : string) (e : latestProjectEntry) : bool :=
  String.eqb (CommitAuthorID e) login.

(** The arrangement a stable sort reaches when the comparison is "[x] is
    marked and [y] is not": the marked elements, then the others, each group
    in its order of arrival. *)
Definition viewerFirst {A} (V : A -> bool) (l : list A) : list A :=
  (base.filter (fun x => V x = true) l
   ++ base.filter (fun x => V x = false) l)%list.

(** Tags (input positions) that increase along a list of tagged elements. *)
Definition tagsIncrease {A} (t : list (nat * A)) : Prop :=
  StronglySorted (fun x y => (x.1 < y.1)%nat) t.

(** ** Sample data *)

(** A repository [alice/foo] with one branch and one commit, pushed at
    [pushedAt], in language [lang]. *)
Definition sampleRepo (pushedAt : Z) (lang : string) : Repo.t :=
  {| Repo.Name := "foo";
     Repo.Description := "";
     Repo.Url := "https://github.com/alice/foo";
     Repo.PrimaryLanguage_Name := lang;
     Repo.PushedAt := pushedAt;
     Repo.IsFork := false;
     Repo.Refs_Edges :=
       [ {| Ref.Name := "main";
            Ref.History_Edges :=
              [ {| Commit.CommitUrl := "https://github.com/alice/foo/commit/abc123";
                   Commit.AbbreviatedOid := "abc123";
                   Commit.Author_User :=
                     {| User.Login := "alice";
                        User.Url := "https://github.com/alice" |} |} ] |} ] |}.

(** The display record of [sampleRepo], with the given language and
    elapsed-time strings. *)
Definition sampleEntry (lang time : string) : latestProjectEntry :=
  {| RepoName := "foo";
     RepoUrl := "https://github.com/alice/foo";
     RepoLang := lang;
     BranchName := "main";
     BranchUrl := "https://github.com/alice/foo/tree/main";
     CommitID := "abc123";
     CommitUrl := "https://github.com/alice/foo/commit/abc123";
     CommitAuthorID := "alice";
     CommitAuthorUrl := "https://github.com/alice";
     Time := time |}.

(** A repository without branches, and one whose branch has no commit. *)
Definition repoWithoutRefs : Repo.t :=
  {| Repo.Name := "empty";
     Repo.Description := "";
     Repo.Url := "https://github.com/alice/empty";
     Repo.PrimaryLanguage_Name := "";
     Repo.PushedAt := 0;
     Repo.IsFork := false;
     Repo.Refs_Edges := [] |}.

Definition repoWithoutCommits : Repo.t :=
  {| Repo.Name := "bare";
     Repo.Description := "";
     Repo.Url := "https://github.com/alice/bare";
     Repo.PrimaryLanguage_Name := "";
     Repo.PushedAt := 0;
     Repo.IsFork := false;
     Repo.Refs_Edges := [ {| Ref.Name := "main"; Ref.History_Edges := [] |} ] |}.

(** A world with the given answers and files, at time [now]. *)
Definition mkWorld (rs : list response) (now : Z) (fs : gmap string string)
  : world :=
  {| responses := rs; clock := now; files := fs |}.

(** The world after one call of [client.Query] that left [rest]. *)
Definition afterQuery (w : world) (rest : list response) : world :=
  {| responses := rest; clock := clock w; files := files w |}.

(** The viewer [alice] with the given repositories. *)
Definition sampleViewer (nodes : list Repo.t) : Viewer.t :=
  {| Viewer.Login := "alice"; Viewer.Repositories_Nodes := nodes |}.

(** ** Rows, written out *)

(** The row template with every field put through [esc]. *)
Definition rowWith (esc : string -> string) (e : latestProjectEntry) : string :=
  "| [" +:+ esc (RepoName e) +:+ "](" +:+ esc (RepoUrl e)
  +:+ ") | [" +:+ esc (BranchName e) +:+ "](" +:+ esc (BranchUrl e)
  +:+ ") |[" +:+ esc (CommitID e) +:+ "](" +:+ esc (CommitUrl e)
  +:+ ") | [@" +:+ esc (CommitAuthorID e) +:+ "](" +:+ esc (CommitAuthorUrl e)
  +:+ ") |" +:+ esc (Time e)
  +:+ " | ![](https://img.shields.io/badge/language-" +:+ esc (RepoLang e)
  +:+ "-default.svg?style=flat-square)|" +:+ Template.nl.

(** The row obtained by substituting the fields, as they are, into the row
    template. *)
Definition literalRow (e : latestProjectEntry) : string := rowWith id e.

(** The fields of a record the row template mentions. *)
Definition entryFields (e : latestProjectEntry) : list string :=
  [RepoName e; RepoUrl e; BranchName e; BranchUrl e; CommitID e; CommitUrl e;
   CommitAuthorID e; CommitAuthorUrl e; Time e; RepoLang e].

(** The string holds a byte the HTML escaper replaces. *)
Fixpoint needsEscape (s : string) : bool :=
  match s with
  | "" => false
  | String c s' =>
      match Template.htmlReplacementTable c with
      | Some _ => true
      | None => needsEscape s'
      end
  end.

(** A record whose branch name holds markup characters. *)
Definition markupEntry : latestProjectEntry :=
  {| RepoName := "foo";
     RepoUrl := "https://github.com/alice/foo";
     RepoLang := "Go";
     BranchName := "fix/a<b>&c";
     BranchUrl := "https://github.com/alice/foo/tree/fix/a<b>&c";
     CommitID := "abc123";
     CommitUrl := "https://github.com/alice/foo/commit/abc123";
     CommitAuthorID := "alice";
     CommitAuthorUrl := "https://github.com/alice";
     Time := "3 hours 15 minutes" |}.

(** The parsed row template after [html/template]'s escaping pass. *)
Definition escapedRowTemplate : list Template.node :=
  let h := [Template.htmlescaper] in
  [Template.TextNode "| ["; Template.ActionNode "RepoName" h;
   Template.TextNode "]("; Template.ActionNode "RepoUrl" h;
   Template.TextNode ") | ["; Template.ActionNode "BranchName" h;
   Template.TextNode "]("; Template.ActionNode "BranchUrl" h;
   Template.TextNode ") |["; Template.ActionNode "CommitID" h;
   Template.TextNode "]("; Template.ActionNode "CommitUrl" h;
   Template.TextNode ") | [@"; Template.ActionNode "CommitAuthorID" h;
   Template.TextNode "]("; Template.ActionNode "CommitAuthorUrl" h;
   Template.TextNode ") |"; Template.ActionNode "Time" h;
   Template.TextNode " | ![](https://img.shields.io/badge/language-";
   Template.ActionNode "RepoLang" h;
   Template.TextNode ("-default.svg?style=flat-square)|" +:+ Template.nl)].


(** The rows of the table, one after the other. *)
Definition concatRows (rows : list string) : string :=
  foldr String.append "" rows.

(** A run that finds the staging file with a title line in it, and one that
    finds only an older [README.md]. *)
Definition stagedWorld : world :=
  mkWorld [QueryData (sampleViewer [sampleRepo 0 "Go"])] 11710000000000
    {[ originReadmeFile := "# alice" +:+ Template.nl ]}.

Definition unstagedWorld : world :=
  mkWorld [QueryData (sampleViewer [sampleRepo 0 "Go"])] 11710000000000
    {[ "README.md" := "# alice" +:+ Template.nl ]}.

(** A run in an empty directory whose query returns no repository. *)
Definition emptyWorld : world :=
  mkWorld [QueryData (sampleViewer [])] 0 ∅.

(** The record of a repository [name] whose latest commit is by [author]. *)
Definition entryBy (author name : string) : latestProjectEntry :=
  {| RepoName := name;
     RepoUrl := "https://github.com/alice/" +:+ name;
     RepoLang := "Go";
     BranchName := "main";
     BranchUrl := "https://github.com/alice/" +:+ name +:+ "/tree/main";
     CommitID := "abc123";
     CommitUrl := "https://github.com/alice/" +:+ name +:+ "/commit/abc123";
     CommitAuthorID := author;
     CommitAuthorUrl := "https://github.com/" +:+ author;
     Time := "0 hours 0 minutes" |}.

(** ** Vocabulary of the further properties *)

(** The node has a first branch, and that branch a first commit. *)
Definition hasCommit (repo : Repo.t) : bool :=
  match Repo.Refs_Edges repo with
  | r :: _ =>
      match Ref.History_Edges r with
      | _ :: _ => true
      | [] => false
      end
  | [] => false
  end.

(** The node cut down to what the loop body reads: no description, no fork
    flag, the first branch only, and of it the first commit only. *)
Definition firstCommitOnly (repo : Repo.t) : Repo.t :=
  {| Repo.Name := Repo.Name repo;
     Repo.Description := "";
     Repo.Url := Repo.Url repo;
     Repo.PrimaryLanguage_Name := Repo.PrimaryLanguage_Name repo;
     Repo.PushedAt := Repo.PushedAt repo;
     Repo.IsFork := false;
     Repo.Refs_Edges :=
       (fun r => {| Ref.Name := Ref.Name r;
                    Ref.History_Edges := take 1 (Ref.History_Edges r) |})
       <$> take 1 (Repo.Refs_Edges repo) |}.

(** Number of occurrences of a byte in a string. *)
Fixpoint countChar (c : ascii) (s : string) : nat :=
  match s with
  | "" => O
  | String c' s' => ((if Ascii.eqb c c' then 1 else 0) + countChar c s')%nat
  end.

(** The string holds one of the bytes HTML gives a meaning to other than
    the ampersand: NUL, a quote, the plus sign, an angle bracket. *)
Fixpoint hasMarkup (s : string) : bool :=
  match s with
  | "" => false
  | String c s' =>
      Ascii.eqb c "000" || Ascii.eqb c "034" || Ascii.eqb c "'"
      || Ascii.eqb c "+" || Ascii.eqb c "<" || Ascii.eqb c ">"
      || hasMarkup s'
  end.

(** The list-item template, which [main] does not use. *)
Definition markdownTmpl : string :=
  Template.nl
  +:+ "- [{{.RepoName}}]({{.RepoUrl}}) on branch [{{.BranchName}}]({{.BranchUrl}}) with commit [{{.CommitID}}]({{.CommitUrl}}) by [@{{.CommitAuthorID}}]({{.CommitAuthorUrl}}) {{.Time}} ago  ![](https://img.shields.io/badge/language-{{.RepoLang}}-default.svg?style=flat-square)".

(** The list-item template with every field put through [esc]. *)
Definition listItemWith (esc : string -> string) (e : latestProjectEntry)
  : string :=
  Template.nl +:+ "- [" +:+ esc (RepoName e) +:+ "](" +:+ esc (RepoUrl e)
  +:+ ") on branch [" +:+ esc (BranchName e) +:+ "](" +:+ esc (BranchUrl e)
  +:+ ") with commit [" +:+ esc (CommitID e) +:+ "](" +:+ esc (CommitUrl e)
  +:+ ") by [@" +:+ esc (CommitAuthorID e) +:+ "](" +:+ esc (CommitAuthorUrl e)
  +:+ ") " +:+ esc (Time e)
  +:+ " ago  ![](https://img.shields.io/badge/language-" +:+ esc (RepoLang e)
  +:+ "-default.svg?style=flat-square)".

(** * Properties *)

(** ** The ordering stage *)

Section InsertionSort.
Local Open Scope nat_scope.
Local Open Scope list_scope.
Context {A : Type}.
Variable V : A -> bool.
Variable less : list A -> nat -> nat -> outcome bool.
Hypothesis less_spec : forall data i j x y,
  data !! i = Some x -> data !! j = Some y ->
  less data i j = Ok (V x && negb (V y)).

Lemma lookup_adjacent (pre : list A) y x post :
  (pre ++ y :: x :: post) !! S (length pre) = Some x.
Proof. induction pre as [|p pre IH]; [done | exact IH]. Qed.

Lemma Swap_adjacent (pre : list A) y x post :
  Swap (pre ++ y :: x :: post) (S (length pre)) (length pre)
  = Ok (pre ++ x :: y :: post).
Proof.
  unfold Swap, index.
  rewrite lookup_adjacent, list_lookup_middle by done. cbn.
  f_equal. induction pre as [|p pre IH]; [done | cbn; by f_equal].
Qed.

Lemma less_adjacent (pre : list A) y x post :
  less (pre ++ y :: x :: post) (S (length pre)) (length pre)
  = Ok (V x && negb (V y)).
Proof.
  apply less_spec; [apply lookup_adjacent | by apply list_lookup_middle].
Qed.

(** An unmarked element stays where the outer loop found it. *)
Lemma insertionInner_unmarked (pre : list A) x post :
  V x = false ->
  insertionInner less 0 (length pre) (pre ++ x :: post) = Ok (pre ++ x :: post).
Proof.
  intros Hx. destruct pre as [|p pre _] using rev_ind; [done|].
  rewrite length_app, Nat.add_1_r. cbn [insertionInner].
  rewrite bool_decide_eq_true_2 by lia.
  rewrite <- app_assoc. cbn [app].
  by rewrite less_adjacent, Hx.
Qed.

(** A marked element passes the unmarked ones that end the prefix and stops
    behind the last marked one. *)
Lemma insertionInner_marked (vs nvs : list A) x post :
  V x = true ->
  Forall (fun v => V v = true) vs ->
  Forall (fun v => V v = false) nvs ->
  insertionInner less 0 (length (vs ++ nvs)) ((vs ++ nvs) ++ x :: post)
  = Ok (vs ++ x :: nvs ++ post).
Proof.
  intros Hx Hvs. revert post.
  induction nvs as [|n nvs IH] using rev_ind; intros post Hnvs.
  - rewrite app_nil_r. cbn [app].
    destruct vs as [|v vs _] using rev_ind; [done|].
    rewrite length_app, Nat.add_1_r. cbn [insertionInner].
    rewrite bool_decide_eq_true_2 by lia.
    rewrite <- app_assoc. cbn [app].
    apply Forall_app in Hvs as [_ Hv]. apply Forall_inv in Hv; cbn beta in Hv.
    by rewrite less_adjacent, Hx, Hv.
  - apply Forall_app in Hnvs as [Hnvs Hn]. apply Forall_inv in Hn; cbn beta in Hn.
    rewrite (app_assoc vs nvs [n]).
    rewrite length_app, Nat.add_1_r. cbn [insertionInner].
    rewrite bool_decide_eq_true_2 by lia.
    rewrite <- (app_assoc (vs ++ nvs)). cbn [app].
    rewrite less_adjacent, Hx, Hn. cbn.
    rewrite Swap_adjacent. cbn.
    rewrite IH by done. by rewrite <- !app_assoc.
Qed.

Lemma viewerFirst_cons x l :
  viewerFirst V (x :: l) =
  if V x then x :: viewerFirst V l
  else base.filter (fun x => V x = true) l
       ++ x :: base.filter (fun x => V x = false) l.
Proof.
  unfold viewerFirst. destruct (V x) eqn:Hx.
  - rewrite filter_cons_True by done. by rewrite filter_cons_False by congruence.
  - rewrite filter_cons_False by congruence. by rewrite filter_cons_True by done.
Qed.

Lemma viewerFirst_snoc l x :
  viewerFirst V (l ++ [x]) =
  if V x then base.filter (fun x => V x = true) l
              ++ x :: base.filter (fun x => V x = false) l
  else viewerFirst V l ++ [x].
Proof.
  unfold viewerFirst. rewrite !filter_app.
  destruct (V x) eqn:Hx.
  - rewrite (filter_cons_True _ x) by done.
    rewrite (filter_cons_False (fun x => V x = false) x) by congruence.
    cbn. by rewrite app_nil_r, <- app_assoc.
  - rewrite (filter_cons_False _ x) by congruence.
    rewrite (filter_cons_True (fun x => V x = false) x) by done.
    cbn. by rewrite app_nil_r, <- !app_assoc.
Qed.

Lemma length_viewerFirst l : length (viewerFirst V l) = length l.
Proof.
  induction l as [|x l IH]; [done|].
  rewrite viewerFirst_cons. destruct (V x); cbn [length]; [by rewrite IH|].
  rewrite length_app. cbn [length].
  unfold viewerFirst in IH. rewrite length_app in IH. lia.
Qed.

(** One iteration of the outer loop keeps the sorted prefix in the
    marked-first arrangement. *)
Lemma insertionInner_viewerFirst sorted x rest :
  insertionInner less 0 (length sorted) (viewerFirst V sorted ++ x :: rest)
  = Ok (viewerFirst V (sorted ++ [x]) ++ rest).
Proof.
  rewrite viewerFirst_snoc, <- (length_viewerFirst sorted).
  destruct (V x) eqn:Hx.
  - unfold viewerFirst. rewrite insertionInner_marked.
    + by rewrite <- app_assoc.
    + done.
    + apply Forall_forall. intros y Hy. by apply list_elem_of_filter in Hy as [? _].
    + apply Forall_forall. intros y Hy. by apply list_elem_of_filter in Hy as [? _].
  - rewrite insertionInner_unmarked by done. by rewrite <- app_assoc.
Qed.

Lemma insertionOuter_viewerFirst rest sorted :
  insertionOuter less 0 (length sorted) (length rest)
    (viewerFirst V sorted ++ rest)
  = Ok (viewerFirst V (sorted ++ rest)).
Proof.
  revert sorted. induction rest as [|x rest IH]; intros sorted.
  - by rewrite !app_nil_r.
  - cbn [length insertionOuter]. rewrite insertionInner_viewerFirst. cbn.
    specialize (IH (sorted ++ [x])). rewrite length_app, Nat.add_1_r in IH.
    by rewrite IH, <- app_assoc.
Qed.

(** The sort terminates without a panic, in the marked-first arrangement. *)
Lemma SliceStable_viewerFirst data :
  SliceStable less data = Ok (viewerFirst V data).
Proof.
  unfold SliceStable, insertionSort. destruct data as [|x data]; [done|].
  cbn [length]. replace (S (length data) - (0 + 1)) with (length data) by lia.
  pose proof (insertionOuter_viewerFirst data [x]) as H.
  cbn [length app] in H. change (0 + 1) with 1. rewrite <- H. f_equal.
  rewrite viewerFirst_cons. by destruct (V x).
Qed.

End InsertionSort.

Section MarkedFirst.
Local Open Scope nat_scope.
Local Open Scope list_scope.
Context {A : Type}.
Variable V : A -> bool.

Lemma viewerFirst_Permutation (l : list A) : viewerFirst V l ≡ₚ l.
Proof.
  induction l as [|x l IH]; [done|].
  rewrite viewerFirst_cons. destruct (V x); [by rewrite IH|].
  rewrite <- Permutation_middle. by constructor.
Qed.

(** Marked elements occupy the positions before the unmarked ones. *)
Lemma viewerFirst_marked_before (l : list A) p q a b :
  viewerFirst V l !! p = Some a -> viewerFirst V l !! q = Some b ->
  V a = true -> V b = false -> p < q.
Proof.
  unfold viewerFirst. intros Hp Hq Ha Hb.
  apply lookup_app_Some in Hp as [Hp | [_ Hp]].
  - apply lookup_app_Some in Hq as [Hq | [Hq _]].
    + apply list_elem_of_lookup_2, list_elem_of_filter in Hq as [Hq _]. congruence.
    + apply lookup_lt_Some in Hp. lia.
  - apply list_elem_of_lookup_2, list_elem_of_filter in Hp as [Hp _]. congruence.
Qed.

Lemma viewerFirst_filter_marked (l : list A) :
  base.filter (fun x => V x = true) (viewerFirst V l)
  = base.filter (fun x => V x = true) l.
Proof.
  induction l as [|x l IH]; [done|].
  rewrite viewerFirst_cons. destruct (V x) eqn:Hx.
  - rewrite !filter_cons_True by done. by rewrite IH.
  - rewrite filter_app, !(filter_cons_False _ x) by congruence.
    by rewrite <- filter_app.
Qed.

Lemma filter_unmarked_marked (l : list A) :
  base.filter (fun x => V x = false) (base.filter (fun x => V x = true) l) = [].
Proof.
  induction l as [|x l IH]; [done|]. destruct (V x) eqn:Hx.
  - rewrite (filter_cons_True _ x) by done. by rewrite filter_cons_False by congruence.
  - by rewrite (filter_cons_False _ x) by congruence.
Qed.

Lemma viewerFirst_filter_unmarked (l : list A) :
  base.filter (fun x => V x = false) (viewerFirst V l)
  = base.filter (fun x => V x = false) l.
Proof.
  induction l as [|x l IH]; [done|].
  rewrite viewerFirst_cons. destruct (V x) eqn:Hx.
  - rewrite !filter_cons_False by congruence. by rewrite IH.
  - unfold viewerFirst in IH. rewrite filter_app in IH |- *.
    rewrite filter_unmarked_marked in IH |- *. cbn [app] in IH |- *.
    rewrite !(filter_cons_True _ x) by done. by rewrite IH.
Qed.

Lemma tagsIncrease_imap (l : list A) k :
  tagsIncrease (imap (fun i a => (k + i, a)) l).
Proof.
  revert k. induction l as [|x l IH]; intros k; [constructor|].
  cbn [imap]. constructor.
  - specialize (IH (S k)). erewrite imap_ext; [exact IH|].
    intros i a _. cbn. f_equal. lia.
  - apply Forall_forall. intros [j b] Hj.
    apply list_elem_of_lookup in Hj as [i Hi].
    rewrite list_lookup_imap in Hi.
    destruct (l !! i); [|done]. cbn in Hi. injection Hi as <- _. cbn. lia.
Qed.

Lemma tagsIncrease_filter (P : nat * A -> Prop) `{forall x, Decision (P x)}
  (t : list (nat * A)) :
  tagsIncrease t -> tagsIncrease (base.filter P t).
Proof.
  induction 1 as [|x t Ht IH Hx]; [constructor|].
  destruct (decide (P x)).
  - rewrite filter_cons_True by done. constructor; [done|].
    apply Forall_forall. intros y Hy. apply list_elem_of_filter in Hy as [_ Hy].
    by apply (proj1 (Forall_forall _ _) Hx).
  - by rewrite filter_cons_False.
Qed.

Lemma tagsIncrease_lookup (t : list (nat * A)) p q x y :
  tagsIncrease t -> p < q -> t !! p = Some x -> t !! q = Some y -> x.1 < y.1.
Proof.
  intros Ht. revert p q. induction Ht as [|z t Ht IH Hz]; intros p q Hpq Hp Hq.
  - done.
  - destruct q as [|q]; [lia|]. destruct p as [|p].
    + cbn in Hp, Hq. injection Hp as ->.
      apply (proj1 (Forall_forall _ _) Hz). by eapply list_elem_of_lookup_2.
    + cbn in Hp, Hq. apply (IH p q); [lia | done | done].
Qed.

(** Within one group the marked-first arrangement keeps tags increasing. *)
Lemma viewerFirst_same_group (t : list (nat * A)) p q x y :
  tagsIncrease t -> p < q ->
  viewerFirst (fun x => V x.2) t !! p = Some x ->
  viewerFirst (fun x => V x.2) t !! q = Some y ->
  V x.2 = V y.2 -> x.1 < y.1.
Proof.
  unfold viewerFirst. intros Ht Hpq Hp Hq Hxy.
  apply lookup_app_Some in Hp as [Hp | [Hlen Hp]];
    apply lookup_app_Some in Hq as [Hq | [Hlen' Hq]].
  - eapply tagsIncrease_lookup; [ | exact Hpq | exact Hp | exact Hq].
    by apply tagsIncrease_filter.
  - apply list_elem_of_lookup_2, list_elem_of_filter in Hp as [Hp _].
    apply list_elem_of_lookup_2, list_elem_of_filter in Hq as [Hq _]. congruence.
  - apply lookup_lt_Some in Hq. lia.
  - eapply tagsIncrease_lookup; [ | | exact Hp | exact Hq].
    + by apply tagsIncrease_filter.
    + lia.
Qed.

Lemma viewerFirst_fmap_snd (t : list (nat * A)) :
  (viewerFirst (fun x => V x.2) t).*2 = viewerFirst V (t.*2).
Proof.
  induction t as [|[i a] t IH]; [done|].
  cbn [fmap list_fmap]. rewrite !viewerFirst_cons. cbn [snd].
  destruct (V a).
  - cbn. by rewrite IH.
  - rewrite fmap_app. cbn. unfold viewerFirst in IH.
    rewrite fmap_app in IH. apply app_inj_1 in IH as [-> ->]; [done|].
    rewrite !length_fmap. clear IH.
    induction t as [|[j b] t IH]; [done|]. cbn [fmap list_fmap].
    destruct (V b) eqn:Hb.
    + rewrite !filter_cons_True by done. cbn. by rewrite IH.
    + by rewrite !filter_cons_False by (cbn; congruence).
Qed.

End MarkedFirst.

Lemma lessByAuthor_spec login (data : list latestProjectEntry) i j x y :
  data !! i = Some x -> data !! j = Some y ->
  lessByAuthor login data i j
  = Ok (isViewer login x && negb (isViewer login y)).
Proof.
  intros Hi Hj. unfold lessByAuthor, index, isViewer. rewrite Hi. cbn.
  destruct (String.eqb (CommitAuthorID x) login); [|done].
  by rewrite Hj.
Qed.

(** With the toggle on, the ordering stage returns, and what it returns is
    the viewer-first arrangement of its input. *)
Lemma orderStage_viewerFirst login l :
  orderStage true login l = Ok (viewerFirst (isViewer login) l).
Proof. apply SliceStable_viewerFirst, lessByAuthor_spec. Qed.

Lemma orderStage_off login l : orderStage false login l = Ok l.
Proof. done. Qed.

Lemma isViewer_true login e : isViewer login e = true <-> CommitAuthorID e = login.
Proof. apply String.eqb_eq. Qed.

Lemma isViewer_false login e : isViewer login e = false <-> CommitAuthorID e <> login.
Proof. apply String.eqb_neq. Qed.

(** C1: with the sort toggle enabled the ordering stage returns a
    rearrangement of its input in which every record whose commit-author id
    is the viewer's login stands before every record whose commit-author id
    is not, wherever the records stood in the input. *)
Theorem orderStage_viewer_first login (l : list latestProjectEntry) :
  exists out,
    orderStage true login l = Ok out /\
    out ≡ₚ l /\
    forall (p q : nat) a b,
      out !! p = Some a -> out !! q = Some b ->
      CommitAuthorID a = login -> CommitAuthorID b <> login ->
      (p < q)%nat.
Proof.
  exists (viewerFirst (isViewer login) l). split; [|split].
  - apply orderStage_viewerFirst.
  - apply viewerFirst_Permutation.
  - intros p q a b Hp Hq Ha Hb.
    eapply viewerFirst_marked_before; [exact Hp | exact Hq | |].
    + by apply isViewer_true.
    + by apply isViewer_false.
Qed.

(** C2: the ordering stage is stable.  Pair every record with its position
    in the input; the output is then a rearrangement [trace] of these pairs
    in which two records of the same group (both authored by the viewer, or
    neither) always appear in the order of their input positions.  In
    particular each group, read off the output, is the group as read off the
    input. *)
Theorem orderStage_stable login (l : list latestProjectEntry) :
  exists trace : list (nat * latestProjectEntry),
    orderStage true login l = Ok (trace.*2) /\
    trace ≡ₚ imap pair l /\
    (forall (p q i j : nat) a b,
       (p < q)%nat ->
       trace !! p = Some (i, a) -> trace !! q = Some (j, b) ->
       isViewer login a = isViewer login b ->
       (i < j)%nat) /\
    base.filter (fun e => isViewer login e = true) (trace.*2)
      = base.filter (fun e => isViewer login e = true) l /\
    base.filter (fun e => isViewer login e = false) (trace.*2)
      = base.filter (fun e => isViewer login e = false) l.
Proof.
  set (V := isViewer login).
  exists (viewerFirst (fun x => V x.2) (imap pair l)).
  assert (Hsnd : (imap pair l).*2 = l).
  { rewrite fmap_imap. clear. induction l as [|x l IH] using rev_ind; [done|].
    rewrite imap_app. cbn. by rewrite IH. }
  rewrite viewerFirst_fmap_snd, Hsnd.
  split; [apply orderStage_viewerFirst|].
  split; [apply viewerFirst_Permutation|].
  split; [|split].
  - intros p q i j a b Hpq Hp Hq Hab.
    apply (viewerFirst_same_group V (imap pair l) p q (i, a) (j, b)); try done.
    apply (tagsIncrease_imap l 0).
  - apply viewerFirst_filter_marked.
  - apply viewerFirst_filter_unmarked.
Qed.

(** ** Elapsed time *)

Section ElapsedTime.
Import Duration.

Lemma wrap64_id z : minDuration <= z <= maxDuration -> wrap64 z = z.
Proof.
  unfold wrap64, minDuration, maxDuration. intros Hz.
  rewrite Z.mod_small; lia.
Qed.

Lemma wrap64_add_l a b : wrap64 (wrap64 a + b) = wrap64 (a + b).
Proof.
  unfold wrap64.
  replace ((a + 2 ^ 63) mod 2 ^ 64 - 2 ^ 63 + b + 2 ^ 63)
    with ((a + 2 ^ 63) mod 2 ^ 64 + b) by lia.
  rewrite Zplus_mod_idemp_l. f_equal. f_equal. lia.
Qed.

Lemma lessThanHalf_small r m :
  0 <= r < m -> m <= maxDuration -> lessThanHalf r m = (2 * r <? m).
Proof.
  unfold lessThanHalf, uint64, maxDuration. intros Hr Hm.
  rewrite (Z.mod_small r), (Z.mod_small m), Z.mod_small by lia.
  f_equal. lia.
Qed.

(** Rounding to the minute, written with floor division: the nearest
    multiple, a tie going away from zero. *)
Lemma Round_Minute_nonneg d :
  0 <= d <= maxDuration ->
  Round d Minute = Minute * ((d + Minute / 2) / Minute).
Proof.
  intros Hd. unfold Round.
  change (Minute <=? 0) with false. cbv iota.
  destruct (d <? 0) eqn:Hneg; [lia|].
  pose proof (Z.rem_bound_pos d Minute) as Hr.
  pose proof (Z.quot_rem' d Minute) as Hqr.
  rewrite Z.rem_mod_nonneg in * by (unfold Minute, Second, Millisecond, Microsecond, Nanosecond; lia).
  rewrite Z.quot_div_nonneg in * by (unfold Minute, Second, Millisecond, Microsecond, Nanosecond; lia).
  unfold maxDuration in Hd.
  change Minute with 60000000000 in *. change (60000000000 / 2) with 30000000000.
  rewrite lessThanHalf_small by (unfold maxDuration; lia).
  pose proof (Z.div_mod (d + 30000000000) 60000000000 ltac:(lia)) as Hdm.
  pose proof (Z.mod_pos_bound (d + 30000000000) 60000000000 ltac:(lia)) as Hmb.
  destruct (2 * (d mod 60000000000) <? 60000000000) eqn:Hhalf.
  - rewrite wrap64_id by (unfold minDuration, maxDuration; lia). nia.
  - rewrite <- Z.add_opp_r, wrap64_add_l, Z.add_opp_r.
    assert (Hup : d + 60000000000 - d mod 60000000000
                  = 60000000000 * ((d + 30000000000) / 60000000000)) by nia.
    rewrite wrap64_id by (unfold minDuration, maxDuration; lia).
    rewrite (proj2 (Z.ltb_lt _ _)) by lia. exact Hup.
Qed.

Lemma Round_Minute_neg d :
  minDuration <= d < 0 ->
  Round d Minute = - (Minute * ((- d + Minute / 2) / Minute)).
Proof.
  intros Hd. unfold Round.
  change (Minute <=? 0) with false. cbv iota.
  rewrite (proj2 (Z.ltb_lt d 0)) by lia.
  unfold minDuration in Hd.
  change Minute with 60000000000 in *. change (60000000000 / 2) with 30000000000.
  assert (Hrem : Z.rem d 60000000000 = - ((- d) mod 60000000000)).
  { rewrite <- (Z.opp_involutive d) at 1.
    rewrite Z.rem_opp_l, Z.rem_mod_nonneg by lia. done. }
  rewrite Hrem, Z.opp_involutive.
  pose proof (Z.div_mod (- d) 60000000000 ltac:(lia)) as Hqr.
  pose proof (Z.mod_pos_bound (- d) 60000000000 ltac:(lia)) as Hr.
  set (r := (- d) mod 60000000000) in *.
  rewrite (wrap64_id r) by (unfold minDuration, maxDuration; lia).
  rewrite lessThanHalf_small by (unfold maxDuration; lia).
  pose proof (Z.div_mod (- d + 30000000000) 60000000000 ltac:(lia)) as Hdm.
  pose proof (Z.mod_pos_bound (- d + 30000000000) 60000000000 ltac:(lia)) as Hmb.
  destruct (2 * r <? 60000000000) eqn:Hhalf.
  - rewrite wrap64_id by (unfold minDuration, maxDuration; lia). nia.
  - rewrite wrap64_add_l.
    assert (Hdown : d - 60000000000 + r
                    = - (60000000000 * ((- d + 30000000000) / 60000000000))) by nia.
    rewrite wrap64_id by (unfold minDuration, maxDuration; lia).
    rewrite (proj2 (Z.ltb_lt _ _)) by lia. exact Hdown.
Qed.

End ElapsedTime.

Section FmtDuration.
Import Duration.

(** For a non-negative duration the hours are the full quotient by an hour,
    and the minutes what is left of the remainder. *)
Lemma fmtDuration_nonneg d :
  0 <= d <= maxDuration ->
  fmtDuration d
  = fmt_d (d / Hour) +:+ " hours " +:+ fmt_d (d mod Hour / Minute) +:+ " minutes".
Proof.
  intros Hd. unfold fmtDuration, maxDuration in *.
  change Hour with 3600000000000 in *. change Minute with 60000000000 in *.
  rewrite Z.quot_div_nonneg by lia.
  pose proof (Z.div_mod d 3600000000000 ltac:(lia)) as Hdm.
  pose proof (Z.mod_pos_bound d 3600000000000 ltac:(lia)) as Hmb.
  rewrite (wrap64_id (d / 3600000000000)) by (unfold minDuration, maxDuration; nia).
  rewrite (wrap64_id (d / 3600000000000 * 3600000000000))
    by (unfold minDuration, maxDuration; nia).
  replace (d - d / 3600000000000 * 3600000000000) with (d mod 3600000000000) by lia.
  rewrite (wrap64_id (d mod 3600000000000)) by (unfold minDuration, maxDuration; lia).
  rewrite Z.quot_div_nonneg by lia.
  pose proof (Z.div_mod (d mod 3600000000000) 60000000000 ltac:(lia)) as Hdm'.
  pose proof (Z.mod_pos_bound (d mod 3600000000000) 60000000000 ltac:(lia)) as Hmb'.
  rewrite wrap64_id by (unfold minDuration, maxDuration; nia).
  done.
Qed.

Lemma Sub_in_range t u :
  minDuration <= t - u <= maxDuration -> Sub t u = t - u.
Proof.
  intros H. unfold Sub.
  destruct (t - u <? minDuration) eqn:H1; [lia|].
  destruct (maxDuration <? t - u) eqn:H2; [lia|]. done.
Qed.

End FmtDuration.

(** ** The transform stage *)

(** The only panic of the loop body is the out-of-range access. *)
Lemma entryOf_cases baseTime repo :
  match Repo.Refs_Edges repo with
  | [] => entryOf baseTime repo = Panic (IndexOutOfRange 0 0)
  | r :: _ =>
      match Ref.History_Edges r with
      | [] => entryOf baseTime repo = Panic (IndexOutOfRange 0 0)
      | c :: _ =>
          entryOf baseTime repo =
          Ok {| RepoName := Repo.Name repo;
                RepoUrl := Repo.Url repo;
                RepoLang := if String.eqb (Repo.PrimaryLanguage_Name repo) ""
                            then "unknown" else Repo.PrimaryLanguage_Name repo;
                BranchName := Ref.Name r;
                BranchUrl := Repo.Url repo +:+ "/tree/" +:+ Ref.Name r;
                CommitID := Commit.AbbreviatedOid c;
                CommitUrl := Commit.CommitUrl c;
                CommitAuthorID := User.Login (Commit.Author_User c);
                CommitAuthorUrl := User.Url (Commit.Author_User c);
                Time := fmtDuration (durationTime baseTime repo) |}
      end
  end.
Proof.
  unfold entryOf, commit0, ref0, index.
  destruct (Repo.Refs_Edges repo) as [|r rs]; [done|]. cbn.
  destruct (Ref.History_Edges r) as [|c cs]; done.
Qed.

Lemma entryOf_Ok_inv baseTime repo e :
  entryOf baseTime repo = Ok e ->
  RepoName e = Repo.Name repo /\
  RepoUrl e = Repo.Url repo /\
  RepoLang e = (if String.eqb (Repo.PrimaryLanguage_Name repo) ""
                then "unknown" else Repo.PrimaryLanguage_Name repo) /\
  Time e = fmtDuration (durationTime baseTime repo).
Proof.
  intros He. pose proof (entryOf_cases baseTime repo) as Hc.
  destruct (Repo.Refs_Edges repo) as [|r rs]; [congruence|].
  destruct (Ref.History_Edges r) as [|c cs]; [congruence|].
  rewrite He in Hc. injection Hc as ->. done.
Qed.

(** C4 (amended): for a repository node pushed no later than the current
    time (and less than a [Duration]'s range, about 292 years, before it),
    the elapsed-time field is the current time minus the push timestamp
    rounded to the nearest minute, a non-negative duration, printed as
    [<H> hours <M> minutes] where [H] is the whole number of hours, not
    reduced to days or weeks, and [M] the minutes left, below 60. *)
Theorem entryOf_elapsed_time baseTime repo e :
  entryOf baseTime repo = Ok e ->
  0 <= baseTime - Repo.PushedAt repo <= Duration.maxDuration ->
  let elapsed := baseTime - Repo.PushedAt repo in
  let d := durationTime baseTime repo in
  let H := d / Duration.Hour in
  let M := d mod Duration.Hour / Duration.Minute in
  d = Duration.Minute * ((elapsed + Duration.Minute / 2) / Duration.Minute) /\
  0 <= d /\
  - Duration.Minute <= 2 * (d - elapsed) <= Duration.Minute /\
  d = H * Duration.Hour + M * Duration.Minute /\
  0 <= H /\ 0 <= M < 60 /\
  (24 * Duration.Hour <= d -> 24 <= H) /\
  Time e = fmt_d H +:+ " hours " +:+ fmt_d M +:+ " minutes".
Proof.
  intros He Hrange elapsed d H M.
  apply entryOf_Ok_inv in He as (_ & _ & _ & Htime).
  assert (Hd : d = Duration.Minute
                   * ((elapsed + Duration.Minute / 2) / Duration.Minute)).
  { unfold d, durationTime. rewrite Sub_in_range.
    - by apply Round_Minute_nonneg.
    - unfold Duration.minDuration. lia. }
  fold d in Htime. subst elapsed H M.
  unfold Duration.maxDuration in Hrange.
  change Duration.Hour with 3600000000000 in *.
  change Duration.Minute with 60000000000 in *.
  change (60000000000 / 2) with 30000000000 in *.
  set (el := baseTime - Repo.PushedAt repo) in *.
  pose proof (Z.div_mod (el + 30000000000) 60000000000 ltac:(lia)) as H1.
  pose proof (Z.mod_pos_bound (el + 30000000000) 60000000000 ltac:(lia)) as H2.
  pose proof (Z.div_mod d 3600000000000 ltac:(lia)) as H3.
  pose proof (Z.mod_pos_bound d 3600000000000 ltac:(lia)) as H4.
  pose proof (Z.div_mod (d mod 3600000000000) 60000000000 ltac:(lia)) as H5.
  pose proof (Z.mod_pos_bound (d mod 3600000000000) 60000000000 ltac:(lia)) as H6.
  assert (Hd0 : 0 <= d <= 2 ^ 63 - 1) by lia.
  assert (Hmin : (d mod 3600000000000) mod 60000000000 = 0).
  { replace (d mod 3600000000000)
      with (((el + 30000000000) / 60000000000 - 60 * (d / 3600000000000))
            * 60000000000) by lia.
    apply Z_mod_mult. }
  split; [exact Hd|]. split; [lia|]. split; [lia|].
  split; [lia|]. split; [nia|]. split; [nia|]. split; [nia|].
  rewrite Htime. apply fmtDuration_nonneg. unfold Duration.maxDuration. lia.
Qed.

(** C4, the claim as stated fails: a node whose push timestamp lies 90
    minutes after the local clock (clock skew) yields a negative duration,
    printed with minus signs. *)
Lemma entryOf_elapsed_time_negative :
  entryOf 0 (sampleRepo (90 * Duration.Minute) "Go")
  = Ok (sampleEntry "Go" "-1 hours -30 minutes") /\
  durationTime 0 (sampleRepo (90 * Duration.Minute) "Go")
  = - (90 * Duration.Minute) /\
  ~ (forall baseTime repo e,
       entryOf baseTime repo = Ok e -> 0 <= durationTime baseTime repo).
Proof.
  split; [reflexivity|]. split; [reflexivity|].
  intros H.
  specialize (H 0 (sampleRepo (90 * Duration.Minute) "Go") _ eq_refl).
  vm_compute in H. by apply H.
Qed.

Lemma entryOf_elapsed_time_witness :
  entryOf 11710000000000 (sampleRepo 0 "Go")
  = Ok (sampleEntry "Go" "3 hours 15 minutes") /\
  0 <= 11710000000000 - 0 <= Duration.maxDuration /\
  durationTime 11710000000000 (sampleRepo 0 "Go")
  = 3 * Duration.Hour + 15 * Duration.Minute.
Proof.
  assert (He : entryOf 11710000000000 (sampleRepo 0 "Go")
               = Ok (sampleEntry "Go" "3 hours 15 minutes")) by reflexivity.
  assert (Hr : 0 <= 11710000000000 - Repo.PushedAt (sampleRepo 0 "Go")
               <= Duration.maxDuration) by (vm_compute; split; discriminate).
  destruct (entryOf_elapsed_time _ _ _ He Hr) as (_ & _ & _ & Hd & _).
  split; [exact He|]. split; [exact Hr|]. exact Hd.
Defined.

(** C5: the language of the display record is the literal [unknown] when
    the node's primary-language name is empty, and the name itself
    otherwise. *)
Theorem entryOf_language baseTime repo e :
  entryOf baseTime repo = Ok e ->
  (Repo.PrimaryLanguage_Name repo = "" -> RepoLang e = "unknown") /\
  (Repo.PrimaryLanguage_Name repo <> "" ->
   RepoLang e = Repo.PrimaryLanguage_Name repo).
Proof.
  intros He. apply entryOf_Ok_inv in He as (_ & _ & -> & _).
  split; intros Hlang.
  - by rewrite Hlang.
  - apply String.eqb_neq in Hlang. by rewrite Hlang.
Qed.

Lemma entryOf_language_witness :
  (entryOf 0 (sampleRepo 0 "") = Ok (sampleEntry "unknown" "0 hours 0 minutes")
   /\ RepoLang (sampleEntry "unknown" "0 hours 0 minutes") = "unknown") /\
  (entryOf 0 (sampleRepo 0 "Go") = Ok (sampleEntry "Go" "0 hours 0 minutes")
   /\ RepoLang (sampleEntry "Go" "0 hours 0 minutes") = "Go").
Proof.
  split.
  - assert (He : entryOf 0 (sampleRepo 0 "")
                 = Ok (sampleEntry "unknown" "0 hours 0 minutes")) by reflexivity.
    split; [exact He|].
    exact (proj1 (entryOf_language _ _ _ He) eq_refl).
  - assert (He : entryOf 0 (sampleRepo 0 "Go")
                 = Ok (sampleEntry "Go" "0 hours 0 minutes")) by reflexivity.
    split; [exact He|].
    apply (proj2 (entryOf_language _ _ _ He)). discriminate.
Defined.

(** ** Failures of the fetch *)

Lemma entryOf_Panic_inv baseTime repo p :
  entryOf baseTime repo = Panic p -> p = IndexOutOfRange 0 0.
Proof.
  intros He. pose proof (entryOf_cases baseTime repo) as Hc.
  destruct (Repo.Refs_Edges repo) as [|r rs]; [congruence|].
  destruct (Ref.History_Edges r) as [|c cs]; congruence.
Qed.

Lemma rangeAppend_Panic {A B} (f : A -> outcome B) p (l : list A) x out :
  (forall y q, f y = Panic q -> q = p) ->
  x ∈ l -> f x = Panic p -> rangeAppend f l out = Panic p.
Proof.
  intros Hf Hx Hp. revert out.
  induction Hx as [x l | x y l Hx IH]; intros out; cbn.
  - by rewrite Hp.
  - destruct (f y) as [b | q] eqn:Hy; cbn; [by apply IH|].
    by rewrite (Hf _ _ Hy).
Qed.

Lemma rangeAppend_Ok {A B} (f : A -> outcome B) (l : list A) out :
  Forall (fun x => exists y, f x = Ok y) l ->
  exists ys, Forall2 (fun x y => f x = Ok y) l ys /\
             rangeAppend f l out = Ok (out ++ ys)%list.
Proof.
  intros Hl. revert out. induction Hl as [|x l [y Hy] _ IH]; intros out.
  - exists []. split; [constructor|]. cbn. by rewrite app_nil_r.
  - destruct (IH (out ++ [y])%list) as (ys & Hys & Hr).
    exists (y :: ys). split; [by constructor|].
    cbn. rewrite Hy. cbn. rewrite Hr. by rewrite <- app_assoc.
Qed.

Lemma fetchLatestProjects_query_error w err rest :
  responses w = QueryError err :: rest ->
  fetchLatestProjects w = (Panic (QueryFailed err), afterQuery w rest).
Proof.
  intros Hw. unfold fetchLatestProjects, mbind, M_bind, clientQuery.
  by rewrite Hw.
Qed.

Lemma fetchLatestProjects_data w v rest :
  responses w = QueryData v :: rest ->
  fetchLatestProjects w =
  (result ← rangeAppend (entryOf (clock w)) (Viewer.Repositories_Nodes v) [];
   orderStage enableSortByName (Viewer.Login v) result,
   afterQuery w rest).
Proof.
  intros Hw. unfold fetchLatestProjects, mbind at 1 2 3, M_bind, clientQuery, timeNow, lift.
  rewrite Hw. cbn.
  by destruct (rangeAppend _ _ _).
Qed.

(** The fetch reads the clock and consumes answers; it never touches a
    file. *)
Lemma fetchLatestProjects_files w o w1 :
  fetchLatestProjects w = (o, w1) -> files w1 = files w /\ clock w1 = clock w.
Proof.
  destruct (responses w) as [|[err | v] rest] eqn:Hw.
  - unfold fetchLatestProjects, mbind, M_bind, clientQuery. rewrite Hw.
    by intros [= _ <-].
  - rewrite (fetchLatestProjects_query_error _ _ _ Hw). by intros [= _ <-].
  - rewrite (fetchLatestProjects_data _ _ _ Hw). by intros [= _ <-].
Qed.

(** C8: when the GraphQL query fails, the run ends at once in the panic
    carrying the error; no file has been created or changed, and the client
    was called exactly once: the answers a second call would have received
    are all still pending. *)
Theorem main_query_failure w err rest :
  responses w = QueryError err :: rest ->
  main w = (Panic (QueryFailed err), afterQuery w rest) /\
  files (afterQuery w rest) = files w /\
  responses (afterQuery w rest) = rest.
Proof.
  intros Hw. split; [|done].
  unfold main, mbind at 1, M_bind.
  by rewrite (fetchLatestProjects_query_error _ _ _ Hw).
Qed.

Lemma main_query_failure_witness :
  main (mkWorld [QueryError "401 Unauthorized";
                 QueryData (sampleViewer [sampleRepo 0 "Go"])]
          0 {[ originReadmeFile := "# alice" ]})
  = (Panic (QueryFailed "401 Unauthorized"),
     mkWorld [QueryData (sampleViewer [sampleRepo 0 "Go"])]
       0 {[ originReadmeFile := "# alice" ]}).
Proof.
  exact (proj1 (main_query_failure
                  (mkWorld [QueryError "401 Unauthorized";
                            QueryData (sampleViewer [sampleRepo 0 "Go"])]
                     0 {[ originReadmeFile := "# alice" ]})
                  "401 Unauthorized" _ eq_refl)).
Defined.

(** A client that gets no answer at all fails in the same way. *)
Lemma main_no_response w :
  responses w = [] -> main w = (Panic (QueryFailed "no response"), w).
Proof.
  intros Hw. unfold main, fetchLatestProjects, mbind, M_bind, clientQuery.
  by rewrite Hw.
Qed.

(** C9: a repository node whose branch-refs edge array is empty, or whose
    first branch has an empty commit-history edge array, makes the transform
    stage fault on the access at index 0: nothing guards it, and it is
    reached in every run whose query returns such a node; the run ends in
    the run-time panic, before any file is written. *)
Theorem main_faults_on_empty_edges w v rest repo :
  responses w = QueryData v :: rest ->
  repo ∈ Viewer.Repositories_Nodes v ->
  Repo.Refs_Edges repo = [] \/
  (exists r rs, Repo.Refs_Edges repo = r :: rs /\ Ref.History_Edges r = []) ->
  entryOf (clock w) repo = Panic (IndexOutOfRange 0 0) /\
  main w = (Panic (IndexOutOfRange 0 0), afterQuery w rest).
Proof.
  intros Hw Hrepo Hempty.
  assert (He : entryOf (clock w) repo = Panic (IndexOutOfRange 0 0)).
  { pose proof (entryOf_cases (clock w) repo) as Hc.
    destruct Hempty as [Hrefs | (r & rs & Hrefs & Hr)]; rewrite Hrefs in Hc; [done|].
    by rewrite Hr in Hc. }
  split; [exact He|].
  unfold main, mbind at 1, M_bind.
  rewrite (fetchLatestProjects_data _ _ _ Hw).
  rewrite (rangeAppend_Panic _ (IndexOutOfRange 0 0) _ repo); try done.
  intros y q. apply entryOf_Panic_inv.
Qed.

Lemma main_faults_on_empty_edges_witness :
  main (mkWorld [QueryData (sampleViewer [sampleRepo 0 "Go"; repoWithoutRefs])]
          0 {[ originReadmeFile := "# alice" ]})
  = (Panic (IndexOutOfRange 0 0),
     mkWorld [] 0 {[ originReadmeFile := "# alice" ]}) /\
  main (mkWorld [QueryData (sampleViewer [repoWithoutCommits; sampleRepo 0 "Go"])]
          0 {[ originReadmeFile := "# alice" ]})
  = (Panic (IndexOutOfRange 0 0),
     mkWorld [] 0 {[ originReadmeFile := "# alice" ]}).
Proof.
  split.
  - refine (proj2 (main_faults_on_empty_edges
                     (mkWorld [QueryData (sampleViewer [sampleRepo 0 "Go"; repoWithoutRefs])]
                        0 {[ originReadmeFile := "# alice" ]})
                     _ [] repoWithoutRefs eq_refl _ (or_introl eq_refl))).
    cbn. apply list_elem_of_further, list_elem_of_here.
  - refine (proj2 (main_faults_on_empty_edges
                     (mkWorld [QueryData (sampleViewer [repoWithoutCommits; sampleRepo 0 "Go"])]
                        0 {[ originReadmeFile := "# alice" ]})
                     _ [] repoWithoutCommits eq_refl _ (or_intror _))).
    + cbn. apply list_elem_of_here.
    + by eexists _, _.
Defined.

(** ** The render stage *)

Lemma append_cons x (a b : string) : String x a +:+ b = String x (a +:+ b).
Proof. reflexivity. Qed.

Lemma append_assoc (a b c : string) : (a +:+ b) +:+ c = a +:+ (b +:+ c).
Proof.
  induction a as [|x a IH]; [done|]. by rewrite !append_cons, IH.
Qed.

Lemma append_nil_r (a : string) : a +:+ "" = a.
Proof.
  induction a as [|x a IH]; [done|]. by rewrite append_cons, IH.
Qed.

(** The row template parses, and the escaping pass puts the HTML escaper
    behind each of its ten actions. *)
Lemma escape_markdownTableTmpl :
  (t ← Template.Parse markdownTableTmpl; Template.escapeTemplate t)
  = Ok escapedRowTemplate.
Proof. vm_compute. reflexivity. Qed.

(** Parsing and executing the row template never fails: a row is the text
    of the template with the HTML-escaped fields in the places of the
    actions, appended to the buffer. *)
Lemma renderRow_rowWith buf e :
  renderRow buf e = Ok (buf +:+ rowWith Template.htmlReplacer e).
Proof.
  unfold renderRow, Template.Execute.
  pose proof escape_markdownTableTmpl as Ht.
  destruct (Template.Parse markdownTableTmpl) as [t|p]; [|done].
  cbn in Ht |- *. rewrite Ht. cbn.
  unfold rowWith. by rewrite !append_assoc.
Qed.

Lemma htmlReplacer_clean s :
  needsEscape s = false -> Template.htmlReplacer s = s.
Proof.
  induction s as [|c s IH]; [done|]. cbn.
  destruct (Template.htmlReplacementTable c); [done|].
  intros Hs. by rewrite IH.
Qed.

Lemma length_append (a b : string) :
  String.length (a +:+ b) = (String.length a + String.length b)%nat.
Proof.
  induction a as [|x a IH]; [done|]. rewrite append_cons. cbn. by rewrite IH.
Qed.

(** Every replacement is longer than the byte it replaces. *)
Lemma htmlReplacementTable_length c repl :
  Template.htmlReplacementTable c = Some repl -> (3 <= String.length repl)%nat.
Proof.
  unfold Template.htmlReplacementTable.
  repeat (destruct (Ascii.eqb c _); [intros [= <-]; cbn; lia|]). done.
Qed.

Lemma length_htmlReplacer s :
  (String.length s <= String.length (Template.htmlReplacer s))%nat /\
  (needsEscape s = true ->
   (String.length s < String.length (Template.htmlReplacer s))%nat).
Proof.
  induction s as [|c s [IH1 IH2]]; [done|]. cbn.
  destruct (Template.htmlReplacementTable c) as [repl|] eqn:Hc.
  - apply htmlReplacementTable_length in Hc. rewrite length_append. lia.
  - cbn. split; [lia|]. intros Hs. specialize (IH2 Hs). lia.
Qed.

Lemma length_rowWith esc e :
  String.length (rowWith esc e)
  = (String.length (rowWith (fun _ => "") e)
     + sum_list (String.length ∘ esc <$> entryFields e))%nat.
Proof.
  unfold rowWith. rewrite !length_append. cbn. lia.
Qed.

Lemma sum_lengths_htmlReplacer (l : list string) :
  (sum_list (String.length ∘ id <$> l)
   <= sum_list (String.length ∘ Template.htmlReplacer <$> l))%nat /\
  (Exists (fun s => needsEscape s = true) l ->
   (sum_list (String.length ∘ id <$> l)
    < sum_list (String.length ∘ Template.htmlReplacer <$> l))%nat).
Proof.
  induction l as [|s l [IH1 IH2]].
  - split; [done|]. by intros H%Exists_nil.
  - destruct (length_htmlReplacer s) as [Hs1 Hs2]. cbn. split; [lia|].
    intros [Hs | Hl]%Exists_cons.
    + specialize (Hs2 Hs). lia.
    + specialize (IH2 Hl). lia.
Qed.

(** C6, the claim as stated fails: the primary language [C++] is rendered
    with its plus signs replaced by character references, not as the
    literal substitution. *)
Lemma renderRow_cplusplus_not_literal :
  renderRow "" (sampleEntry "C++" "3 hours 15 minutes")
  = Ok ("| [foo](https://github.com/alice/foo) | [main](https://github.com/alice/foo/tree/main) |[abc123](https://github.com/alice/foo/commit/abc123) | [@alice](https://github.com/alice) |3 hours 15 minutes | ![](https://img.shields.io/badge/language-C&#43;&#43;-default.svg?style=flat-square)|"
        +:+ Template.nl) /\
  literalRow (sampleEntry "C++" "3 hours 15 minutes")
  = "| [foo](https://github.com/alice/foo) | [main](https://github.com/alice/foo/tree/main) |[abc123](https://github.com/alice/foo/commit/abc123) | [@alice](https://github.com/alice) |3 hours 15 minutes | ![](https://img.shields.io/badge/language-C++-default.svg?style=flat-square)|"
    +:+ Template.nl /\
  renderRow "" (sampleEntry "C++" "3 hours 15 minutes")
  <> Ok (literalRow (sampleEntry "C++" "3 hours 15 minutes")).
Proof.
  split; [vm_compute; reflexivity|]. split; [vm_compute; reflexivity|].
  vm_compute. discriminate.
Qed.

Lemma rowWith_clean e :
  Forall (fun s => needsEscape s = false) (entryFields e) ->
  rowWith Template.htmlReplacer e = rowWith id e.
Proof.
  intros Hclean.
  unfold entryFields in Hclean.
  repeat match goal with
         | H : Forall _ (_ :: _) |- _ =>
             apply Forall_cons in H as [?%htmlReplacer_clean H]
         end.
  unfold rowWith.
  repeat match goal with
         | H : Template.htmlReplacer _ = _ |- _ => rewrite H; clear H
         end.
  reflexivity.
Qed.

(** C6 (amended): a display record none of whose fields holds a byte the
    HTML escaper replaces (NUL, the double and single quote, ampersand,
    plus, less-than, greater-than) is rendered as exactly the literal row
    obtained by substituting its fields into the row template; the worked
    example of the specification is such a record. *)
Theorem renderRow_literal e :
  Forall (fun s => needsEscape s = false) (entryFields e) ->
  renderRow "" e = Ok (literalRow e).
Proof.
  intros Hclean. rewrite renderRow_rowWith.
  rewrite (rowWith_clean e Hclean). reflexivity.
Qed.

Lemma renderRow_literal_witness :
  Forall (fun s => needsEscape s = false)
    (entryFields (sampleEntry "Go" "3 hours 15 minutes")) /\
  renderRow "" (sampleEntry "Go" "3 hours 15 minutes")
  = Ok ("| [foo](https://github.com/alice/foo) | [main](https://github.com/alice/foo/tree/main) |[abc123](https://github.com/alice/foo/commit/abc123) | [@alice](https://github.com/alice) |3 hours 15 minutes | ![](https://img.shields.io/badge/language-Go-default.svg?style=flat-square)|"
        +:+ Template.nl).
Proof.
  assert (Hclean : Forall (fun s => needsEscape s = false)
                     (entryFields (sampleEntry "Go" "3 hours 15 minutes")))
    by (repeat constructor).
  split; [exact Hclean|].
  exact (renderRow_literal _ Hclean).
Defined.

(** C10: the renderer HTML-escapes the field values.  A display record with
    a field holding a byte of the replacement table is rendered as the row
    template filled with the escaped fields, and that row is not the
    verbatim substitution of the fields. *)
Theorem renderRow_escapes e :
  Exists (fun s => needsEscape s = true) (entryFields e) ->
  exists row,
    renderRow "" e = Ok row /\
    row = rowWith Template.htmlReplacer e /\
    row <> literalRow e.
Proof.
  intros Hdirty. exists (rowWith Template.htmlReplacer e).
  split; [apply renderRow_rowWith|]. split; [done|].
  intros Heq. apply (f_equal String.length) in Heq.
  unfold literalRow in Heq.
  rewrite (length_rowWith Template.htmlReplacer), (length_rowWith id) in Heq.
  destruct (sum_lengths_htmlReplacer (entryFields e)) as [_ Hlt].
  specialize (Hlt Hdirty).
  generalize dependent (String.length (rowWith (fun _ => "") e)).
  intros; lia.
Qed.

Lemma renderRow_escapes_witness :
  Exists (fun s => needsEscape s = true) (entryFields markupEntry) /\
  renderRow "" markupEntry
  = Ok ("| [foo](https://github.com/alice/foo) | [fix/a&lt;b&gt;&amp;c](https://github.com/alice/foo/tree/fix/a&lt;b&gt;&amp;c) |[abc123](https://github.com/alice/foo/commit/abc123) | [@alice](https://github.com/alice) |3 hours 15 minutes | ![](https://img.shields.io/badge/language-Go-default.svg?style=flat-square)|"
        +:+ Template.nl) /\
  literalRow markupEntry
  = "| [foo](https://github.com/alice/foo) | [fix/a<b>&c](https://github.com/alice/foo/tree/fix/a<b>&c) |[abc123](https://github.com/alice/foo/commit/abc123) | [@alice](https://github.com/alice) |3 hours 15 minutes | ![](https://img.shields.io/badge/language-Go-default.svg?style=flat-square)|"
    +:+ Template.nl.
Proof.
  assert (Hdirty : Exists (fun s => needsEscape s = true) (entryFields markupEntry))
    by (apply Exists_cons_tl, Exists_cons_tl, Exists_cons_hd; reflexivity).
  destruct (renderRow_escapes _ Hdirty) as (row & Hrow & -> & _).
  split; [exact Hdirty|]. split; [exact Hrow|]. reflexivity.
Defined.

(** ** The write stage and the whole run *)

Lemma renderRows_concatRows buf r :
  renderRows buf r
  = Ok (buf +:+ concatRows (rowWith Template.htmlReplacer <$> r)).
Proof.
  revert buf. induction r as [|v r IH]; intros buf; cbn.
  - by rewrite append_nil_r.
  - rewrite renderRow_rowWith. cbn. by rewrite IH, append_assoc.
Qed.

Lemma mbind_Ok {A B} (m : M A) (k : A -> M B) w a w' :
  m w = (Ok a, w') -> (m ≫= k) w = k a w'.
Proof. intros Hm. unfold mbind, M_bind. by rewrite Hm. Qed.

Lemma mbind_Panic {A B} (m : M A) (k : A -> M B) w p w' :
  m w = (Panic p, w') -> (m ≫= k) w = (Panic p, w').
Proof. intros Hm. unfold mbind, M_bind. by rewrite Hm. Qed.

Lemma OpenFile_existing w name content :
  files w !! name = Some content -> OpenFile name w = (Ok (Some name), w).
Proof. intros Hf. unfold OpenFile. by rewrite Hf. Qed.

Lemma OpenFile_missing w name :
  files w !! name = None -> OpenFile name w = (Ok None, w).
Proof. intros Hf. unfold OpenFile. by rewrite Hf. Qed.

Lemma WriteString_open w name content s :
  files w !! name = Some content ->
  WriteString (Some name) s w
  = (Ok tt, mkWorld (responses w) (clock w) (<[name := content +:+ s]> (files w))).
Proof. intros Hf. unfold WriteString. by rewrite Hf. Qed.

Lemma Rename_existing w oldpath newpath content :
  files w !! oldpath = Some content ->
  Rename oldpath newpath w
  = (Ok tt, mkWorld (responses w) (clock w)
              (<[newpath := content]> (delete oldpath (files w)))).
Proof. intros Hf. unfold Rename. by rewrite Hf. Qed.

Lemma Rename_missing w oldpath newpath :
  files w !! oldpath = None -> Rename oldpath newpath w = (Ok tt, w).
Proof. intros Hf. unfold Rename. by rewrite Hf. Qed.

(** What [main] does once the fetch has returned [r]: it renders, then
    appends to and renames the staging file if there is one, and otherwise
    leaves through the discarded errors. *)
Lemma main_after_fetch w r w1 :
  fetchLatestProjects w = (Ok r, w1) ->
  main w =
  match files w !! originReadmeFile with
  | Some prior =>
      (Ok tt,
       mkWorld (responses w1) (clock w1)
         (<["README.md" :=
              prior +:+ markdownTableHeaderTmpl
              +:+ concatRows (rowWith Template.htmlReplacer <$> r)]>
            (delete originReadmeFile (files w))))
  | None => (Ok tt, w1)
  end.
Proof.
  intros Hfetch. destruct (fetchLatestProjects_files _ _ _ Hfetch) as [Hfiles _].
  unfold main. rewrite (mbind_Ok _ _ _ _ _ Hfetch).
  erewrite mbind_Ok; [|unfold lift; by rewrite renderRows_concatRows].
  destruct (files w !! originReadmeFile) as [prior|] eqn:Hprior.
  - erewrite mbind_Ok; [|apply (OpenFile_existing _ _ prior); congruence].
    erewrite mbind_Ok; [|apply (WriteString_open _ _ prior); congruence].
    erewrite mbind_Ok;
      [|apply (WriteString_open _ _ (prior +:+ markdownTableHeaderTmpl));
        cbn; apply lookup_insert_eq].
    erewrite mbind_Ok;
      [|eapply Rename_existing; cbn; apply lookup_insert_eq].
    unfold Close, mret, M_ret, mkWorld. cbn. f_equal. f_equal.
    rewrite Hfiles, insert_insert_eq, delete_insert_eq.
    by rewrite append_assoc.
  - erewrite mbind_Ok; [|apply OpenFile_missing; congruence].
    erewrite mbind_Ok; [|reflexivity].
    erewrite mbind_Ok; [|reflexivity].
    erewrite mbind_Ok; [|apply Rename_missing; congruence].
    done.
Qed.

Lemma renderRows_rows r :
  Forall2 (fun v row => renderRow "" v = Ok row) r
    (rowWith Template.htmlReplacer <$> r).
Proof.
  induction r as [|v r IH]; [constructor|].
  constructor; [apply renderRow_rowWith | exact IH].
Qed.

(** C7: the run from end to end.  When the staging file exists with some
    prior content and the fetch has returned the records [r], the run ends
    normally; the output file [README.md] then holds the prior content, the
    header template and the rendered rows of [r] in order, the staging file
    name is gone, and every other file is as it was. *)
Theorem main_end_to_end w r w1 prior :
  fetchLatestProjects w = (Ok r, w1) ->
  files w !! originReadmeFile = Some prior ->
  exists rows w',
    Forall2 (fun v row => renderRow "" v = Ok row) r rows /\
    main w = (Ok tt, w') /\
    files w' !! "README.md"
    = Some (prior +:+ markdownTableHeaderTmpl +:+ concatRows rows) /\
    files w' !! originReadmeFile = None /\
    forall path,
      path <> "README.md" -> path <> originReadmeFile ->
      files w' !! path = files w !! path.
Proof.
  intros Hfetch Hprior.
  pose proof (main_after_fetch _ _ _ Hfetch) as Hmain. rewrite Hprior in Hmain.
  eexists _, _. split; [apply renderRows_rows|].
  split; [exact Hmain|]. cbn. split; [apply lookup_insert_eq|].
  split.
  - rewrite lookup_insert_ne by done. apply lookup_delete_eq.
  - intros path H1 H2. rewrite lookup_insert_ne by done.
    by rewrite lookup_delete_ne.
Qed.

(** C3 (amended): when the staging file does not exist, the open fails and
    its error is discarded, like those of the writes and of the rename that
    follow: no output file is produced and no file is changed; the process
    does not abort, the run that reached the write stage ends normally. *)
Theorem main_missing_staging_file w :
  files w !! originReadmeFile = None ->
  files (main w).2 = files w /\
  forall r w1, fetchLatestProjects w = (Ok r, w1) -> main w = (Ok tt, w1).
Proof.
  intros Hmissing.
  assert (Hok : forall r w1,
             fetchLatestProjects w = (Ok r, w1) -> main w = (Ok tt, w1)).
  { intros r w1 Hfetch. rewrite (main_after_fetch _ _ _ Hfetch).
    by rewrite Hmissing. }
  split; [|exact Hok].
  destruct (fetchLatestProjects w) as [[r|p] w1] eqn:Hfetch.
  - rewrite (Hok _ _ eq_refl). cbn. by apply (fetchLatestProjects_files _ _ _ Hfetch).
  - unfold main. rewrite (mbind_Panic _ _ _ _ _ Hfetch). cbn.
    by apply (fetchLatestProjects_files _ _ _ Hfetch).
Qed.

Lemma main_end_to_end_witness :
  fetchLatestProjects stagedWorld
  = (Ok [sampleEntry "Go" "3 hours 15 minutes"], afterQuery stagedWorld []) /\
  files stagedWorld !! originReadmeFile = Some ("# alice" +:+ Template.nl) /\
  exists w',
    main stagedWorld = (Ok tt, w') /\
    files w' !! "README.md"
    = Some (("# alice" +:+ Template.nl) +:+ markdownTableHeaderTmpl
            +:+ literalRow (sampleEntry "Go" "3 hours 15 minutes")) /\
    files w' !! originReadmeFile = None.
Proof.
  assert (Hfetch : fetchLatestProjects stagedWorld
                   = (Ok [sampleEntry "Go" "3 hours 15 minutes"],
                      afterQuery stagedWorld [])) by reflexivity.
  assert (Hprior : files stagedWorld !! originReadmeFile
                   = Some ("# alice" +:+ Template.nl)) by reflexivity.
  split; [exact Hfetch|]. split; [exact Hprior|].
  destruct (main_end_to_end _ _ _ _ Hfetch Hprior)
    as (rows & w' & Hrows & Hmain & Hout & Hgone & _).
  exists w'. split; [exact Hmain|]. split; [|exact Hgone].
  apply Forall2_cons_inv_l in Hrows as (row & rows' & Hrow & Hnil & ->).
  apply Forall2_nil_inv_l in Hnil as ->.
  rewrite renderRow_rowWith, rowWith_clean in Hrow by (repeat constructor).
  injection Hrow as <-. fold (literalRow (sampleEntry "Go" "3 hours 15 minutes")).
  rewrite Hout. unfold concatRows. cbn [foldr]. by rewrite append_nil_r.
Defined.

(** C3, the claim as stated fails: in an empty directory the run does not
    abort; it ends normally, having written nothing. *)
Lemma main_missing_staging_file_no_abort :
  files emptyWorld !! originReadmeFile = None /\
  main emptyWorld = (Ok tt, mkWorld [] 0 ∅) /\
  ~ (forall w, files w !! originReadmeFile = None ->
               exists p, (main w).1 = Panic p).
Proof.
  assert (Hmain : main emptyWorld = (Ok tt, mkWorld [] 0 ∅)).
  { by rewrite (main_after_fetch emptyWorld [] (mkWorld [] 0 ∅)). }
  split; [done|]. split; [exact Hmain|].
  intros Habort. destruct (Habort emptyWorld) as [p Hp]; [done|].
  rewrite Hmain in Hp. discriminate.
Qed.

Lemma main_missing_staging_file_witness :
  files unstagedWorld !! originReadmeFile = None /\
  main unstagedWorld = (Ok tt, afterQuery unstagedWorld []) /\
  files (main unstagedWorld).2 = {[ "README.md" := "# alice" +:+ Template.nl ]}.
Proof.
  assert (Hmissing : files unstagedWorld !! originReadmeFile = None)
    by reflexivity.
  destruct (main_missing_staging_file _ Hmissing) as [Hfiles Hok].
  split; [exact Hmissing|]. split.
  - apply (Hok [sampleEntry "Go" "3 hours 15 minutes"]). reflexivity.
  - exact Hfiles.
Defined.

(** ** Worked examples *)

Example fmtDuration_3h15 :
  fmtDuration (3 * Duration.Hour + 15 * Duration.Minute) = "3 hours 15 minutes".
Proof. reflexivity. Qed.

Example fmtDuration_two_days :
  fmtDuration (49 * Duration.Hour + 5 * Duration.Minute) = "49 hours 5 minutes".
Proof. reflexivity. Qed.

Example Round_half_minute_up :
  Duration.Round (90 * Duration.Second) Duration.Minute = 2 * Duration.Minute.
Proof. reflexivity. Qed.

Example Round_below_half_minute_down :
  Duration.Round (89 * Duration.Second) Duration.Minute = 1 * Duration.Minute.
Proof. reflexivity. Qed.

Example htmlReplacer_language :
  Template.htmlReplacer "C++" = "C&#43;&#43;".
Proof. reflexivity. Qed.

Example orderStage_sample :
  orderStage true "alice"
    [entryBy "bob" "r1"; entryBy "alice" "r2"; entryBy "carol" "r3";
     entryBy "alice" "r4"; entryBy "bob" "r5"]
  = Ok [entryBy "alice" "r2"; entryBy "alice" "r4"; entryBy "bob" "r1";
        entryBy "carol" "r3"; entryBy "bob" "r5"].
Proof. reflexivity. Qed.

(** * Further properties *)

(** ** The transform stage, for every input *)

Lemma hasCommit_entryOf baseTime repo :
  hasCommit repo = true -> exists e, entryOf baseTime repo = Ok e.
Proof.
  unfold hasCommit. intros Hc. pose proof (entryOf_cases baseTime repo) as He.
  destruct (Repo.Refs_Edges repo) as [|r rs]; [done|].
  destruct (Ref.History_Edges r) as [|c cs]; [done|]. eauto.
Qed.

(** X1: when every returned node has a branch with a commit, the fetch
    succeeds with exactly one record per node: the records of the nodes, in
    the order of the nodes, rearranged viewer-first. *)
Theorem fetchLatestProjects_one_record_per_node w v rest :
  responses w = QueryData v :: rest ->
  Forall (fun repo => hasCommit repo = true) (Viewer.Repositories_Nodes v) ->
  exists es out,
    Forall2 (fun repo e => entryOf (clock w) repo = Ok e)
      (Viewer.Repositories_Nodes v) es /\
    fetchLatestProjects w = (Ok out, afterQuery w rest) /\
    out = viewerFirst (isViewer (Viewer.Login v)) es /\
    out ≡ₚ es /\
    length out = length (Viewer.Repositories_Nodes v).
Proof.
  intros Hw Hnodes.
  destruct (rangeAppend_Ok (entryOf (clock w)) (Viewer.Repositories_Nodes v) [])
    as (es & Hes & Hrange).
  { eapply Forall_impl; [exact Hnodes|]. intros repo. apply hasCommit_entryOf. }
  exists es, (viewerFirst (isViewer (Viewer.Login v)) es).
  split; [exact Hes|]. split; [|split; [done|split]].
  - rewrite (fetchLatestProjects_data _ _ _ Hw), Hrange.
    unfold mbind, outcome_bind. cbn [app]. change enableSortByName with true.
    by rewrite orderStage_viewerFirst.
  - apply viewerFirst_Permutation.
  - rewrite length_viewerFirst. symmetry. by eapply Forall2_length.
Qed.

Lemma fetchLatestProjects_one_record_per_node_witness :
  fetchLatestProjects stagedWorld
  = (Ok [sampleEntry "Go" "3 hours 15 minutes"], afterQuery stagedWorld []).
Proof.
  destruct (fetchLatestProjects_one_record_per_node stagedWorld
              (sampleViewer [sampleRepo 0 "Go"]) [] eq_refl)
    as (es & out & Hes & Hfetch & -> & _).
  { repeat constructor. }
  rewrite Hfetch. f_equal. f_equal.
  apply Forall2_cons_inv_l in Hes as (e & es' & He & Hnil & ->).
  apply Forall2_nil_inv_l in Hnil as ->.
  vm_compute in He. injection He as <-. reflexivity.
Defined.

(** X2: the loop body reads the name, the URL, the language, the push time,
    the first branch and its first commit, and nothing else: the
    description, the fork flag (forks are listed like any repository) and
    all further branches and commits have no influence on the record, nor
    on whether the access faults. *)
Theorem entryOf_firstCommitOnly baseTime repo :
  entryOf baseTime repo = entryOf baseTime (firstCommitOnly repo).
Proof.
  pose proof (entryOf_cases baseTime repo) as H1.
  pose proof (entryOf_cases baseTime (firstCommitOnly repo)) as H2.
  unfold firstCommitOnly in H2 at 1. cbn [Repo.Refs_Edges] in H2.
  destruct (Repo.Refs_Edges repo) as [|r rs] eqn:Hr; cbn in H2; [congruence|].
  destruct (Ref.History_Edges r) as [|c cs] eqn:Hc; cbn in H2; [congruence|].
  rewrite H1, H2. reflexivity.
Qed.

(** ** Elapsed time, for every input *)

Section ElapsedTimeAll.
Import Duration.

Lemma Sub_range t u : minDuration <= Sub t u <= maxDuration.
Proof.
  unfold Sub, minDuration, maxDuration.
  destruct (t - u <? - 2 ^ 63) eqn:H1; [lia|].
  destruct (2 ^ 63 - 1 <? t - u) eqn:H2; lia.
Qed.

(** Rounding an [int64] duration to the minute never leaves the range:
    the saturating branches of [Round] are not reached. *)
Lemma Round_Minute_spec d :
  minDuration <= d <= maxDuration ->
  Round d Minute mod Minute = 0 /\
  - Minute <= 2 * (Round d Minute - d) <= Minute /\
  minDuration <= Round d Minute <= maxDuration /\
  (0 <= d -> 0 <= Round d Minute) /\
  (d <= 0 -> Round d Minute <= 0).
Proof.
  intros Hd. destruct (Z_lt_le_dec d 0) as [Hneg | Hpos].
  - rewrite Round_Minute_neg by lia.
    unfold minDuration, maxDuration in *.
    change Minute with 60000000000. change (60000000000 / 2) with 30000000000.
    pose proof (Z.div_mod (- d + 30000000000) 60000000000 ltac:(lia)) as H1.
    pose proof (Z.mod_pos_bound (- d + 30000000000) 60000000000 ltac:(lia)) as H2.
    split.
    { rewrite <- Z.mul_opp_r, Z.mul_comm. apply Z_mod_mult. }
    lia.
  - rewrite Round_Minute_nonneg by lia.
    unfold minDuration, maxDuration in *.
    change Minute with 60000000000. change (60000000000 / 2) with 30000000000.
    pose proof (Z.div_mod (d + 30000000000) 60000000000 ltac:(lia)) as H1.
    pose proof (Z.mod_pos_bound (d + 30000000000) 60000000000 ltac:(lia)) as H2.
    split.
    { rewrite Z.mul_comm. apply Z_mod_mult. }
    lia.
Qed.

End ElapsedTimeAll.

(** X3: whatever the clock and the push timestamp, the duration handed to
    [fmtDuration] is a whole number of minutes, at most half a minute away
    from the difference of the two instants as [Sub] reports it (saturated
    to the range of a [Duration]), of the same sign, and itself within that
    range. *)
Theorem durationTime_whole_minutes baseTime repo :
  let s := Duration.Sub baseTime (Repo.PushedAt repo) in
  let d := durationTime baseTime repo in
  d mod Duration.Minute = 0 /\
  - Duration.Minute <= 2 * (d - s) <= Duration.Minute /\
  Duration.minDuration <= d <= Duration.maxDuration /\
  (0 <= s -> 0 <= d) /\
  (s <= 0 -> d <= 0).
Proof.
  intros s d. apply Round_Minute_spec, Sub_range.
Qed.

(** X4: for every [int64] duration, [fmtDuration] prints the quotient by an
    hour and the quotient by a minute of what remains, both truncated toward
    zero and computed without overflow: hours and minutes carry the sign of
    the duration, the minutes stay below 60 in absolute value, and what is
    dropped is the part below a minute. *)
Theorem fmtDuration_int64 d :
  Duration.minDuration <= d <= Duration.maxDuration ->
  let H := d ÷ Duration.Hour in
  let M := Z.rem d Duration.Hour ÷ Duration.Minute in
  fmtDuration d = fmt_d H +:+ " hours " +:+ fmt_d M +:+ " minutes" /\
  d = H * Duration.Hour + M * Duration.Minute + Z.rem d Duration.Minute /\
  Z.abs M < 60 /\
  (0 <= d -> 0 <= H /\ 0 <= M) /\
  (d <= 0 -> H <= 0 /\ M <= 0).
Proof.
  intros Hd H M. subst H M.
  unfold fmtDuration, Duration.minDuration, Duration.maxDuration in *.
  change Duration.Hour with 3600000000000.
  change Duration.Minute with 60000000000.
  assert (Hh : Duration.wrap64 (d ÷ 3600000000000) = d ÷ 3600000000000).
  { apply wrap64_id. unfold Duration.minDuration, Duration.maxDuration.
    Z.quot_rem_to_equations. lia. }
  rewrite Hh.
  assert (Hhh : Duration.wrap64 (d ÷ 3600000000000 * 3600000000000)
                = d ÷ 3600000000000 * 3600000000000).
  { apply wrap64_id. unfold Duration.minDuration, Duration.maxDuration.
    Z.quot_rem_to_equations. lia. }
  rewrite Hhh.
  assert (Hr : d - d ÷ 3600000000000 * 3600000000000 = Z.rem d 3600000000000).
  { Z.quot_rem_to_equations. lia. }
  rewrite Hr.
  assert (Hrr : Duration.wrap64 (Z.rem d 3600000000000) = Z.rem d 3600000000000).
  { apply wrap64_id. unfold Duration.minDuration, Duration.maxDuration.
    Z.quot_rem_to_equations. lia. }
  rewrite Hrr.
  assert (Hm : Duration.wrap64 (Z.rem d 3600000000000 ÷ 60000000000)
               = Z.rem d 3600000000000 ÷ 60000000000).
  { apply wrap64_id. unfold Duration.minDuration, Duration.maxDuration.
    Z.quot_rem_to_equations. lia. }
  rewrite Hm.
  split; [done|].
  Z.quot_rem_to_equations. lia.
Qed.

Lemma fmtDuration_int64_witness :
  Duration.minDuration <= - (90 * Duration.Minute + 59 * Duration.Second)
    <= Duration.maxDuration /\
  fmtDuration (- (90 * Duration.Minute + 59 * Duration.Second))
  = fmt_d (-1) +:+ " hours " +:+ fmt_d (-30) +:+ " minutes".
Proof.
  assert (Hd : Duration.minDuration
               <= - (90 * Duration.Minute + 59 * Duration.Second)
               <= Duration.maxDuration) by (vm_compute; split; discriminate).
  split; [exact Hd|].
  exact (proj1 (fmtDuration_int64 _ Hd)).
Defined.

(** X5: [fmtDuration] looks at whole minutes only: a duration and the same
    duration with its part below a minute cut off print alike. *)
Theorem fmtDuration_drops_seconds d :
  Duration.minDuration <= d <= Duration.maxDuration ->
  fmtDuration d = fmtDuration (d - Z.rem d Duration.Minute).
Proof.
  intros Hd.
  assert (Hd' : Duration.minDuration <= d - Z.rem d Duration.Minute
                <= Duration.maxDuration).
  { unfold Duration.minDuration, Duration.maxDuration in *.
    change Duration.Minute with 60000000000.
    Z.quot_rem_to_equations. lia. }
  destruct (fmtDuration_int64 d Hd) as [-> _].
  destruct (fmtDuration_int64 _ Hd') as [-> _].
  unfold Duration.minDuration, Duration.maxDuration in *.
  change Duration.Hour with 3600000000000.
  change Duration.Minute with 60000000000.
  assert (H1 : (d - Z.rem d 60000000000) ÷ 3600000000000 = d ÷ 3600000000000).
  { Z.quot_rem_to_equations. lia. }
  assert (H2 : Z.rem (d - Z.rem d 60000000000) 3600000000000 ÷ 60000000000
               = Z.rem d 3600000000000 ÷ 60000000000).
  { assert (Hr : Z.rem (d - Z.rem d 60000000000) 3600000000000
                 = Z.rem d 3600000000000 - Z.rem d 60000000000)
      by (Z.quot_rem_to_equations; lia).
    assert (Hs : Z.rem d 60000000000
                 = Z.rem (Z.rem d 3600000000000) 60000000000)
      by (Z.quot_rem_to_equations; lia).
    rewrite Hr, Hs.
    pose proof (Z.quot_rem' (Z.rem d 3600000000000) 60000000000) as Hqr.
    replace (Z.rem d 3600000000000
             - Z.rem (Z.rem d 3600000000000) 60000000000)
      with (Z.rem d 3600000000000 ÷ 60000000000 * 60000000000) by lia.
    by apply Z.quot_mul. }
  by rewrite H1, H2.
Qed.

Lemma fmtDuration_drops_seconds_witness :
  Duration.minDuration <= 3 * Duration.Hour + 15 * Duration.Minute
                          + 59 * Duration.Second <= Duration.maxDuration /\
  fmtDuration (3 * Duration.Hour + 15 * Duration.Minute + 59 * Duration.Second)
  = fmtDuration (3 * Duration.Hour + 15 * Duration.Minute).
Proof.
  assert (Hd : Duration.minDuration
               <= 3 * Duration.Hour + 15 * Duration.Minute + 59 * Duration.Second
               <= Duration.maxDuration) by (vm_compute; split; discriminate).
  split; [exact Hd|].
  exact (fmtDuration_drops_seconds _ Hd).
Defined.

(** X6: the elapsed-time field of every record, also for a push timestamp
    in the future or centuries away, shows the rounded duration without
    loss: hours times an hour plus minutes times a minute is the duration
    handed to [fmtDuration], with less than 60 minutes. *)
Theorem entryOf_time_exact baseTime repo e :
  entryOf baseTime repo = Ok e ->
  let d := durationTime baseTime repo in
  let H := d ÷ Duration.Hour in
  let M := Z.rem d Duration.Hour ÷ Duration.Minute in
  Time e = fmt_d H +:+ " hours " +:+ fmt_d M +:+ " minutes" /\
  d = H * Duration.Hour + M * Duration.Minute /\
  Z.abs M < 60.
Proof.
  intros He d H M.
  apply entryOf_Ok_inv in He as (_ & _ & _ & ->). fold d.
  destruct (durationTime_whole_minutes baseTime repo) as (Hmod & _ & Hrange & _).
  fold d in Hmod, Hrange.
  destruct (fmtDuration_int64 d Hrange) as (Hfmt & Hsum & Habs & _).
  split; [exact Hfmt|]. split; [|exact Habs].
  assert (Hrem : Z.rem d Duration.Minute = 0).
  { apply Z.rem_divide; [done|]. apply Z.mod_divide; [done|exact Hmod]. }
  fold H M in Hsum. lia.
Qed.

Lemma entryOf_time_exact_witness :
  entryOf 0 (sampleRepo (90 * Duration.Minute) "Go")
  = Ok (sampleEntry "Go" "-1 hours -30 minutes") /\
  durationTime 0 (sampleRepo (90 * Duration.Minute) "Go")
  = -1 * Duration.Hour + -30 * Duration.Minute.
Proof.
  assert (He : entryOf 0 (sampleRepo (90 * Duration.Minute) "Go")
               = Ok (sampleEntry "Go" "-1 hours -30 minutes")) by reflexivity.
  split; [exact He|].
  exact (proj1 (proj2 (entryOf_time_exact _ _ _ He))).
Defined.
